(** * Estadillos: grouping of controllers, shared timeline, classification,
      anchor selection and colours (src/atcapp/estadillos.py)

    Shallow embedding of the presentation engine of the daily roster
    ("estadillo").  The [src/cambios/estadillos.py] revision has the same
    algorithms; it only reads the instants through [hora_inicio_tz] instead of
    [hora_inicio_utc] and takes [now] from the clock inside [_es_activo].

    Modelling conventions.
    - An instant ([datetime]) is a [Z] count of seconds on one UTC scale: the
      naive columns [hora_inicio] / [hora_fin] and their aware accessors
      [hora_inicio_utc] / [hora_fin_utc] denote the same instant.
    - [datetime - datetime] is a [timedelta], normalised as Python does:
      [days = d // 86400] and [seconds = d % 86400] (floor semantics).
    - ORM objects ([ATC], [Sector]) are compared by identity, i.e. by their
      primary key; a [dict] keyed by them is an association list kept in
      insertion order, a [set] of sectors a duplicate-free list.
    - Python exceptions are the [Err] branch of the result type [Res]. *)

From Stdlib Require Import List ZArith String Bool Lia.
From Stdlib Require Import Sorting.Permutation Sorting.Sorted Ascii Floats.
Import ListNotations.
Open Scope Z_scope.

(** ** Results: a value or a raised exception *)

Inductive Res (A : Type) : Type :=
| Ok (a : A)
| Err (e : string).
Arguments Ok {A} a.
Arguments Err {A} e.

Definition bind {A B} (m : Res A) (k : A -> Res B) : Res B :=
  match m with Ok a => k a | Err e => Err e end.

Notation "'let*' x := m 'in' k" := (bind m (fun x => k))
  (at level 200, x name, m at level 100, k at level 200).

(** ** Data model (src/atcapp/models.py, as used by estadillos.py) *)

Module ATC.
Record t := mk { id : nat; nombre_apellidos : string }.
Definition eqb (a b : t) : bool := Nat.eqb (id a) (id b).
End ATC.
Abbreviation ATC := ATC.t.

Module Sector.
Record t := mk { id : nat; nombre : string }.
Definition eqb (a b : t) : bool := Nat.eqb (id a) (id b).
End Sector.

Module Periodo.
Record t := mk {
  id : nat;
  controlador : ATC;
  sector : option Sector.t;
  hora_inicio : Z;
  hora_fin : Z;
  actividad : string }.
Definition eqb (a b : t) : bool := Nat.eqb (id a) (id b).
End Periodo.

Module Estadillo.
Record t := mk { id : nat; hora_inicio : Z; hora_fin : Z }.
End Estadillo.

(** [Grupo]: the dataclass of estadillos.py.  [controladores] is the
    insertion-ordered [dict[ATC, list[Periodo]]]. *)
Module Grupo.
Record t := mk {
  estadillo : Estadillo.t;
  sectores : list Sector.t;
  controladores : list (ATC * list Periodo.t);
  duracion : Z;
  anchor : option Periodo.t }.
End Grupo.

(** ** [timedelta] arithmetic *)

Module Timedelta.
Record t := mk { days : Z; seconds : Z }.
End Timedelta.

(** [a - b] for two datetimes. *)
Definition resta (a b : Z) : Timedelta.t :=
  Timedelta.mk ((a - b) / 86400) ((a - b) mod 86400).

(** [(fin - inicio).seconds // 60], the one duration formula of the module. *)
Definition minutos (fin inicio : Z) : Z :=
  Timedelta.seconds (resta fin inicio) / 60.

(** ** Insertion-ordered dictionaries and sets *)

Fixpoint dict_get {V} (d : list (ATC * V)) (k : ATC) : option V :=
  match d with
  | [] => None
  | (k', v) :: r => if ATC.eqb k k' then Some v else dict_get r k
  end.

Definition dict_mem {V} (d : list (ATC * V)) (k : ATC) : bool :=
  match dict_get d k with Some _ => true | None => false end.

(** [d[k] = v]: update in place, or insert at the end. *)
Fixpoint dict_set {V} (d : list (ATC * V)) (k : ATC) (v : V) : list (ATC * V) :=
  match d with
  | [] => [(k, v)]
  | (k', v') :: r => if ATC.eqb k k' then (k', v) :: r else (k', v') :: dict_set r k v
  end.

(** [defaultdict(...)[k]]: the stored value or the default factory's. *)
Definition dict_dflt {V} (dflt : V) (d : list (ATC * V)) (k : ATC) : V :=
  match dict_get d k with Some v => v | None => dflt end.

Definition keys {V} (d : list (ATC * V)) : list ATC := map fst d.

Definition set_mem (s : Sector.t) (xs : list Sector.t) : bool :=
  existsb (Sector.eqb s) xs.

(** [xs.add(s)] *)
Definition set_add (s : Sector.t) (xs : list Sector.t) : list Sector.t :=
  if set_mem s xs then xs else xs ++ [s].

(** [xs.update(ys)] *)
Definition set_update (xs ys : list Sector.t) : list Sector.t :=
  fold_left (fun acc s => set_add s acc) ys xs.

(** [bool(xs & ys)] *)
Definition set_interseca (xs ys : list Sector.t) : bool :=
  existsb (fun s => set_mem s ys) xs.

(** [lst.remove(x)] removes the first occurrence. *)
Fixpoint remove_first (x : ATC) (l : list ATC) : list ATC :=
  match l with
  | [] => []
  | y :: r => if ATC.eqb x y then r else y :: remove_first x r
  end.
(** [lst.remove(x)] raises when [x] is absent; in [identifica_grupos] it is
    only called on a controller of the snapshot not yet removed. *)

(** ** [identifica_grupos] *)

Definition SPC := list (ATC * list Sector.t).
Definition PPC := list (ATC * list Periodo.t).

(** One iteration of [for periodo in periodos:] building
    [sectores_por_controlador] and [periodos_por_controlador]. *)
Definition reparte_paso (acc : SPC * PPC) (p : Periodo.t) : SPC * PPC :=
  let '(spc, ppc) := acc in
  let c := Periodo.controlador p in
  let spc' := match Periodo.sector p with
              | Some s => dict_set spc c (set_add s (dict_dflt [] spc c))
              | None => spc
              end in
  (spc', dict_set ppc c (dict_dflt [] ppc c ++ [p])).

Definition reparte (periodos : list Periodo.t) : SPC * PPC :=
  fold_left reparte_paso periodos ([], []).

(** [for otro_controlador in controladores_sin_asignar[:]: ...]: one pass over
    the snapshot, threading the group's controllers, its sectors and the
    worklist. *)
Fixpoint absorbe (spc : SPC) (ppc : PPC) (snapshot : list ATC)
    (gc : PPC) (gs : list Sector.t) (sin : list ATC)
    : PPC * list Sector.t * list ATC :=
  match snapshot with
  | [] => (gc, gs, sin)
  | o :: r =>
      if set_interseca (dict_dflt [] spc o) gs
      then absorbe spc ppc r (dict_set gc o (dict_dflt [] ppc o))
             (set_update gs (dict_dflt [] spc o)) (remove_first o sin)
      else absorbe spc ppc r gc gs sin
  end.

(** [lst[0]] and [lst[-1]]. *)
Definition primero {A} (l : list A) : Res A :=
  match l with [] => Err "IndexError: list index out of range" | x :: _ => Ok x end.
Definition ultimo {A} (l : list A) : Res A :=
  match rev l with [] => Err "IndexError: list index out of range" | x :: _ => Ok x end.

(** The [while controladores_sin_asignar:] loop; every iteration pops one
    controller, so [List.length] of the worklist is enough fuel. *)
Fixpoint bucle_grupos (est : Estadillo.t) (spc : SPC) (ppc : PPC) (fuel : nat)
    (sin : list ATC) (res : list Grupo.t) : Res (list Grupo.t) :=
  match fuel with
  | O => Ok res
  | S fuel' =>
    match sin with
    | [] => Ok res
    | c :: resto =>
      let sa := dict_dflt [] spc c in
      match sa with
      | [] => bucle_grupos est spc ppc fuel' resto res
      | _ =>
        let gc0 := [(c, dict_dflt [] ppc c)] in
        let '(gc, gs, sin') := absorbe spc ppc resto gc0 sa resto in
        let* pi := primero (dict_dflt [] gc c) in
        let* pf := ultimo (dict_dflt [] gc c) in
        let dur := minutos (Periodo.hora_fin pf) (Periodo.hora_inicio pi) in
        bucle_grupos est spc ppc fuel' sin'
          (res ++ [Grupo.mk est gs gc dur None])
      end
    end
  end.

Definition identifica_grupos (est : Estadillo.t) (periodos : list Periodo.t)
    : Res (list Grupo.t) :=
  let '(spc, ppc) := reparte periodos in
  let sin := keys spc in
  bucle_grupos est spc ppc (List.length sin) sin [].

(** ** Display helpers *)

(** A [pytz] zone, read as its UTC offset (in seconds) at each instant. *)
Definition TZ := Z -> Z.

Definition digito (n : Z) : ascii := ascii_of_nat (48 + Z.to_nat n).
Definition dos_digitos (n : Z) : string :=
  String (digito (n / 10)) (String (digito (n mod 10)) EmptyString).

(** [datetime.strftime(t.astimezone(tz), "%H:%M")] *)
Definition hhmm (tz : TZ) (t : Z) : string :=
  let local := t + tz t in
  String.append (dos_digitos ((local mod 86400) / 3600))
    (String.append ":" (dos_digitos ((local mod 3600) / 60))).

(** Python's [int -> float] on the magnitudes met here ([|z| < 2^62]). *)
Definition float_of_Z (z : Z) : float :=
  if z <? 0 then PrimFloat.opp (PrimFloat.of_uint63 (Uint63.of_Z (- z)))
  else PrimFloat.of_uint63 (Uint63.of_Z z).

(** [duracion / dur_total * 100], a float; [ZeroDivisionError] on a zero
    total. *)
Definition porcentaje_de (duracion dur_total : Z) : Res float :=
  if dur_total =? 0 then Err "ZeroDivisionError: division by zero"
  else Ok (PrimFloat.mul (PrimFloat.div (float_of_Z duracion) (float_of_Z dur_total))
                         (float_of_Z 100)).

Module PeriodoData.
Record t := mk {
  hora_inicio : string;
  hora_fin : string;
  actividad : string;
  color : string;
  duracion : Z;
  porcentaje : float;
  activo : string;
  scroll_anchor : bool }.
End PeriodoData.

(** ** [_genera_horas_de_inicio] *)

(** [list.sort(key=lambda p: p.hora_inicio)]: a stable sort.  Each element is
    inserted after every element of equal key already placed, and the elements
    are inserted in their input order. *)
Fixpoint inserta (p : Periodo.t) (l : list Periodo.t) : list Periodo.t :=
  match l with
  | [] => [p]
  | q :: r =>
      if Periodo.hora_inicio p <? Periodo.hora_inicio q then p :: q :: r
      else q :: inserta p r
  end.

Definition ordena (l : list Periodo.t) : list Periodo.t :=
  fold_left (fun acc p => inserta p acc) l [].

(** [while periodos_deque and periodos_deque[0].hora_inicio_utc == hora_inicio_utc:
        current_period = periodos_deque.popleft()] *)
Fixpoint saca_iguales (h : Z) (cur : Periodo.t) (dq : list Periodo.t)
    : Periodo.t * list Periodo.t :=
  match dq with
  | q :: r => if Periodo.hora_inicio q =? h then saca_iguales h q r else (cur, dq)
  | [] => (cur, [])
  end.

(** The outer [while periodos_deque:] loop; each iteration pops at least one
    period, so the deque's length is enough fuel. *)
Fixpoint bucle_horas (tz : TZ) (dur_total : Z) (fuel : nat) (dq : list Periodo.t)
    : Res (list PeriodoData.t) :=
  match fuel with
  | O => Ok []
  | S fuel' =>
    match dq with
    | [] => Ok []
    | cur :: r =>
      let h := Periodo.hora_inicio cur in
      let '(cur', dq') := saca_iguales h cur r in
      let duracion := match dq' with
                      | q :: _ => minutos (Periodo.hora_inicio q) h
                      | [] => minutos (Periodo.hora_fin cur') h
                      end in
      let* pct := porcentaje_de duracion dur_total in
      let* resto := bucle_horas tz dur_total fuel' dq' in
      Ok (PeriodoData.mk (hhmm tz h) "" "" "" duracion pct "FUT" false :: resto)
    end
  end.

Definition genera_horas_de_inicio (dur_total : Z) (controladores : PPC) (tz : TZ)
    : Res (list PeriodoData.t) :=
  let periodos_todos := List.concat (map snd controladores) in
  let dq := ordena periodos_todos in
  bucle_horas tz dur_total (List.length dq) dq.

Definition suma_duraciones (l : list PeriodoData.t) : Z :=
  fold_right (fun e acc => PeriodoData.duracion e + acc) 0 l.

(** ** [_es_activo] (the atcapp revision takes [now] as an argument) *)

Definition es_activo (hora_inicio hora_fin grupo_hora_inicio grupo_hora_fin now : Z)
    : string :=
  if (now <? grupo_hora_inicio) || (grupo_hora_fin <? now) then "FUT"
  else if hora_fin <? now then "PAS"
  else if now <? hora_inicio then "FUT"
  else "ACT".

(** ** [marca_anchor]

    The groups are mutated in place; the model returns the updated list. *)

Definition activo_en (now : Z) (p : Periodo.t) : bool :=
  (Periodo.hora_inicio p <=? now) && (now <=? Periodo.hora_fin p).

(** The list comprehension [periodos_activos]. *)
Definition periodos_activos (grupos : list Grupo.t) (now : Z) : list Periodo.t :=
  flat_map (fun g => flat_map (fun kv => filter (activo_en now) (snd kv))
                              (Grupo.controladores g)) grupos.

Definition con_anchor (g : Grupo.t) (p : Periodo.t) : Grupo.t :=
  Grupo.mk (Grupo.estadillo g) (Grupo.sectores g) (Grupo.controladores g)
           (Grupo.duracion g) (Some p).

(** Set the anchor of the group at position [i]. *)
Fixpoint marca_en (i : nat) (p : Periodo.t) (grupos : list Grupo.t) : list Grupo.t :=
  match grupos, i with
  | [], _ => []
  | g :: r, O => con_anchor g p :: r
  | g :: r, S i' => g :: marca_en i' p r
  end.

(** [next((i for i, grupo in enumerate(grupos) if user in grupo.controladores), None)] *)
Fixpoint indice_de_usuario (user : ATC) (grupos : list Grupo.t) : option nat :=
  match grupos with
  | [] => None
  | g :: r =>
      if dict_mem (Grupo.controladores g) user then Some O
      else option_map S (indice_de_usuario user r)
  end.

(** [for periodo in periodos_activos: if periodo.controlador == user: ...] *)
Fixpoint rama_usuario (user : ATC) (grupos : list Grupo.t) (activos : list Periodo.t)
    : option (list Grupo.t) :=
  match activos with
  | [] => None
  | p :: r =>
      if ATC.eqb (Periodo.controlador p) user then
        match indice_de_usuario user grupos with
        | Some i => Some (marca_en i p grupos)
        | None => rama_usuario user grupos r
        end
      else rama_usuario user grupos r
  end.

(** [max(grupos, key=lambda g: len(g.controladores))]: the position of the first
    group of greatest size ([max] keeps the first of equal keys). *)
Fixpoint indice_max_aux (i : nat) (best : nat) (bestlen : nat) (grupos : list Grupo.t)
    : nat :=
  match grupos with
  | [] => best
  | g :: r =>
      let n := List.length (Grupo.controladores g) in
      if Nat.ltb bestlen n then indice_max_aux (S i) i n r
      else indice_max_aux (S i) best bestlen r
  end.

Definition indice_max (grupos : list Grupo.t) : Res nat :=
  match grupos with
  | [] => Err "ValueError: max() arg is an empty sequence"
  | g :: r => Ok (indice_max_aux 1 0 (List.length (Grupo.controladores g)) r)
  end.

Definition marca_anchor (grupos : list Grupo.t) (user : option ATC) (now : Z)
    : Res (list Grupo.t) :=
  let activos := periodos_activos grupos now in
  let tras_usuario := match user with
                      | Some u => rama_usuario u grupos activos
                      | None => None
                      end in
  match tras_usuario with
  | Some gs => Ok gs
  | None =>
    match activos with
    | [] => Ok grupos
    | _ =>
      let* i := indice_max grupos in
      match nth_error grupos i with
      | None => Ok grupos
      | Some gmax =>
        match find (fun p => dict_mem (Grupo.controladores gmax) (Periodo.controlador p))
                   activos with
        | Some p => Ok (marca_en i p grupos)
        | None => Ok grupos
        end
      end
    end
  end.

(** ** [ColorManager] *)

Open Scope float_scope.

(** Python's [int(x)] on a finite float: truncation towards zero. *)
Definition trunc_Z (x : float) : Z :=
  match FloatOps.Prim2SF x with
  | SpecFloat.S754_finite s m e =>
      let n := if (0 <=? e)%Z then Z.shiftl (Zpos m) e else Z.shiftr (Zpos m) (- e) in
      if s then (- n)%Z else n
  | _ => 0%Z
  end.

(** [x % 1.0] on floats: [fmod], then moved into [0, 1). *)
Definition mod1 (x : float) : float :=
  let m := x - float_of_Z (trunc_Z x) in
  if m =? 0 then 0 else if m <? 0 then m + 1 else m.

Definition fmax3 (a b c : float) : float :=
  let m := if a <? b then b else a in if m <? c then c else m.
Definition fmin3 (a b c : float) : float :=
  let m := if b <? a then b else a in if c <? m then c else m.

(** [colorsys.rgb_to_hls] (CPython 3.11). *)
Definition rgb_to_hls (r g b : float) : float * float * float :=
  let maxc := fmax3 r g b in
  let minc := fmin3 r g b in
  let sumc := maxc + minc in
  let rangec := maxc - minc in
  let l := sumc / 2 in
  if minc =? maxc then (0, l, 0) else
  let s := if l <=? 0.5 then rangec / sumc else rangec / (2 - sumc) in
  let rc := (maxc - r) / rangec in
  let gc := (maxc - g) / rangec in
  let bc := (maxc - b) / rangec in
  let h := if r =? maxc then bc - gc
           else if g =? maxc then 2 + rc - bc
           else 4 + gc - rc in
  (mod1 (h / 6), l, s).

Definition ONE_THIRD : float := 1 / 3.
Definition ONE_SIXTH : float := 1 / 6.
Definition TWO_THIRD : float := 2 / 3.

(** [colorsys._v] *)
Definition v_hls (m1 m2 hue : float) : float :=
  let hue := mod1 hue in
  if hue <? ONE_SIXTH then m1 + (m2 - m1) * hue * 6
  else if hue <? 0.5 then m2
  else if hue <? TWO_THIRD then m1 + (m2 - m1) * (TWO_THIRD - hue) * 6
  else m1.

(** [colorsys.hls_to_rgb] *)
Definition hls_to_rgb (h l s : float) : float * float * float :=
  if s =? 0 then (l, l, l) else
  let m2 := if l <=? 0.5 then l * (1 + s) else l + s - (l * s) in
  let m1 := 2 * l - m2 in
  (v_hls m1 m2 (h + ONE_THIRD), v_hls m1 m2 h, v_hls m1 m2 (h - ONE_THIRD)).

Close Scope float_scope.

(** [int(s, 16)] of one hexadecimal digit. *)
Definition hex_digito (c : ascii) : option Z :=
  let n := Z.of_nat (nat_of_ascii c) in
  if (48 <=? n) && (n <=? 57) then Some (n - 48)
  else if (65 <=? n) && (n <=? 70) then Some (n - 55)
  else if (97 <=? n) && (n <=? 102) then Some (n - 87)
  else None.

(** [int(color[i : i + 2], 16)] *)
Definition hex_byte (color : string) (i : nat) : Res Z :=
  match get i color, get (S i) color with
  | Some a, Some b =>
      match hex_digito a, hex_digito b with
      | Some x, Some y => Ok (16 * x + y)
      | _, _ => Err "ValueError: invalid literal for int() with base 16"
      end
  | _, _ => Err "ValueError: invalid literal for int() with base 16"
  end.

Definition hex_char (d : Z) : ascii :=
  if d <? 10 then ascii_of_nat (48 + Z.to_nat d) else ascii_of_nat (87 + Z.to_nat d).

Fixpoint hex_digitos (fuel : nat) (n : Z) (acc : string) : string :=
  match fuel with
  | O => acc
  | S f => let acc' := String (hex_char (n mod 16)) acc in
           if n <? 16 then acc' else hex_digitos f (n / 16) acc'
  end.

(** [f"{n:02x}"] *)
Definition formato_02x (n : Z) : string :=
  if n <? 0 then String "-" (hex_digitos 64 (- n) EmptyString)
  else if n <? 16 then String "0" (hex_digitos 64 n EmptyString)
  else hex_digitos 64 n EmptyString.

Definition a_float (n : Z) : float := float_of_Z n.

(** [ColorManager._darken_color] *)
Definition darken_color (color : string) : Res string :=
  let* red := hex_byte color 1 in
  let* green := hex_byte color 3 in
  let* blue := hex_byte color 5 in
  let '(hue, lum, sat) :=
    rgb_to_hls (PrimFloat.div (a_float red) 255) (PrimFloat.div (a_float green) 255)
               (PrimFloat.div (a_float blue) 255) in
  let lum' := PrimFloat.sub lum 0x1.3333333333333p-2 in  (* the double nearest 0.3 *)
  let lum := if PrimFloat.ltb 0 lum' then lum' else 0%float in
  let '(r, g, b) := hls_to_rgb hue lum sat in
  Ok (String "#" (String.append (formato_02x (trunc_Z (PrimFloat.mul r 255)))
       (String.append (formato_02x (trunc_Z (PrimFloat.mul g 255)))
                      (formato_02x (trunc_Z (PrimFloat.mul b 255)))))).

(** [self.available_colors] as set by [__post_init__]: ten hues, written out
    twice. *)
Definition paleta : list string :=
  ["#FF5733"; "#33FF57"; "#3357FF"; "#FF33A1"; "#A133FF";
   "#33FFF2"; "#FFC133"; "#FF3333"; "#33FF99"; "#FF33FF";
   "#FF5733"; "#33FF57"; "#3357FF"; "#FF33A1"; "#A133FF";
   "#33FFF2"; "#FFC133"; "#FF3333"; "#33FF99"; "#FF33FF"]%string.

Module ColorManager.
Record t := mk {
  sector_colors : list (string * (string * string));
  used_colors : list string;
  available_colors : list string }.
End ColorManager.

(** [ColorManager()] *)
Definition color_manager_nuevo : ColorManager.t := ColorManager.mk [] [] paleta.

Fixpoint str_get {V} (d : list (string * V)) (k : string) : option V :=
  match d with
  | [] => None
  | (k', v) :: r => if String.eqb k k' then Some v else str_get r k
  end.

(** [d[k] = v] for a [str]-keyed dict. *)
Fixpoint str_set {V} (d : list (string * V)) (k : string) (v : V) : list (string * V) :=
  match d with
  | [] => [(k, v)]
  | (k', v') :: r => if String.eqb k k' then (k', v) :: r else (k', v') :: str_set r k v
  end.

(** [ColorManager.get_color]: the colour and the manager's new state. *)
Definition get_color (cm : ColorManager.t) (sector : string) (is_executive : bool)
    : Res (string * ColorManager.t) :=
  let* cm' :=
    match str_get (ColorManager.sector_colors cm) sector with
    | Some _ => Ok cm
    | None =>
      match ColorManager.available_colors cm with
      | [] => Err "IndexError: pop from empty list"
      | color :: resto =>
        let* oscuro := darken_color color in
        Ok (ColorManager.mk (str_set (ColorManager.sector_colors cm) sector (color, oscuro))
                            (ColorManager.used_colors cm) resto)
      end
    end in
  match str_get (ColorManager.sector_colors cm') sector with
  | Some (executive_color, planner_color) =>
      Ok (if is_executive then executive_color else planner_color, cm')
  | None => Err "KeyError"
  end.

(** A sequence of [get_color] calls on one manager: the colours returned, and
    the final state. *)
Fixpoint get_colors (cm : ColorManager.t) (llamadas : list (string * bool))
    : Res (list string * ColorManager.t) :=
  match llamadas with
  | [] => Ok ([], cm)
  | (s, e) :: r =>
      let* x := get_color cm s e in
      let '(c, cm1) := x in
      let* y := get_colors cm1 r in
      let '(cs, cm2) := y in
      Ok (c :: cs, cm2)
  end.

(** ** [genera_datos_grupo] and its helpers *)

(** [_genera_actividad] *)
Definition genera_actividad (per : Periodo.t) : Res string :=
  if String.eqb (Periodo.actividad per) "D" then Ok ""%string
  else if String.eqb (Periodo.actividad per) "CAS" then Ok "CAS"%string
  else match Periodo.sector per with
       | Some s => Ok (String.append (Periodo.actividad per)
                                     (String "-" (Sector.nombre s)))
       | None => Err "AttributeError: 'NoneType' object has no attribute 'nombre'"
       end.

(** [_genera_color] *)
Definition genera_color (per : Periodo.t) (cm : ColorManager.t)
    : Res (string * ColorManager.t) :=
  if String.eqb (Periodo.actividad per) "D" then Ok ("white"%string, cm)
  else match Periodo.sector per with
       | Some s => get_color cm (Sector.nombre s) (String.eqb (Periodo.actividad per) "E")
       | None => Err "AttributeError: 'NoneType' object has no attribute 'nombre'"
       end.

(** [calcula_marcador] *)
Definition calcula_marcador (grupo : Grupo.t) (now : Z) : Res float :=
  let inicio_grupo := Estadillo.hora_inicio (Grupo.estadillo grupo) in
  let fin_grupo := Estadillo.hora_fin (Grupo.estadillo grupo) in
  if now <? inicio_grupo then Ok 0%float
  else if fin_grupo <? now then Ok 100%float
  else
    let total_duracion := float_of_Z (fin_grupo - inicio_grupo) in
    let duracion_actual := float_of_Z (now - inicio_grupo) in
    if PrimFloat.eqb total_duracion 0 then Err "ZeroDivisionError: float division by zero"
    else Ok (PrimFloat.mul (PrimFloat.div duracion_actual total_duracion) 100).

Module EstadilloPersonalData.
Record t := mk { nombre : string; periodos : list PeriodoData.t; usuario_actual : bool }.
End EstadilloPersonalData.

Module GrupoDatos.
Record t := mk {
  sectores : list string;
  atcs : list EstadilloPersonalData.t;
  horas_inicio : list PeriodoData.t;
  marcador : float }.
End GrupoDatos.

(** [sectores.sort()] on names. *)
Fixpoint inserta_str (s : string) (l : list string) : list string :=
  match l with
  | [] => [s]
  | x :: r => if String.ltb s x then s :: x :: r else x :: inserta_str s r
  end.
Definition ordena_str (l : list string) : list string :=
  fold_left (fun acc s => inserta_str s acc) l [].

(** The [PeriodoData(...)] built for one period [p] of the group; the keyword
    arguments are evaluated left to right. *)
Definition periodo_data (grupo : Grupo.t) (tz : TZ) (now : Z) (cm : ColorManager.t)
    (p : Periodo.t) : Res (PeriodoData.t * ColorManager.t) :=
  let* actividad := genera_actividad p in
  let* x := genera_color p cm in
  let '(color, cm') := x in
  let duracion := minutos (Periodo.hora_fin p) (Periodo.hora_inicio p) in
  let* porcentaje := porcentaje_de duracion (Grupo.duracion grupo) in
  let activo := es_activo (Periodo.hora_inicio p) (Periodo.hora_fin p)
                  (Estadillo.hora_inicio (Grupo.estadillo grupo))
                  (Estadillo.hora_fin (Grupo.estadillo grupo)) now in
  let scroll := match Grupo.anchor grupo with
                | Some a => Periodo.eqb p a
                | None => false
                end in
  Ok (PeriodoData.mk (hhmm tz (Periodo.hora_inicio p)) (hhmm tz (Periodo.hora_fin p))
        actividad color duracion porcentaje activo scroll, cm').

Fixpoint periodos_data (grupo : Grupo.t) (tz : TZ) (now : Z) (cm : ColorManager.t)
    (ps : list Periodo.t) : Res (list PeriodoData.t * ColorManager.t) :=
  match ps with
  | [] => Ok ([], cm)
  | p :: r =>
      let* x := periodo_data grupo tz now cm p in
      let '(d, cm1) := x in
      let* y := periodos_data grupo tz now cm1 r in
      let '(ds, cm2) := y in
      Ok (d :: ds, cm2)
  end.

Fixpoint atcs_data (grupo : Grupo.t) (tz : TZ) (user : option ATC) (now : Z)
    (cm : ColorManager.t) (ctrls : PPC) : Res (list EstadilloPersonalData.t * ColorManager.t) :=
  match ctrls with
  | [] => Ok ([], cm)
  | (c, ps) :: r =>
      let* x := periodos_data grupo tz now cm ps in
      let '(ds, cm1) := x in
      let actual := match user with Some u => ATC.eqb c u | None => false end in
      let* y := atcs_data grupo tz user now cm1 r in
      let '(rest, cm2) := y in
      Ok (EstadilloPersonalData.mk (ATC.nombre_apellidos c) ds actual :: rest, cm2)
  end.

(** [genera_datos_grupo]; [now] is [datetime.now(tz)]. *)
Definition genera_datos_grupo (grupo : Grupo.t) (cm : ColorManager.t) (tz : TZ)
    (user : option ATC) (now : Z) : Res (GrupoDatos.t * ColorManager.t) :=
  let sectores := ordena_str (map Sector.nombre (Grupo.sectores grupo)) in
  let* x := atcs_data grupo tz user now cm (Grupo.controladores grupo) in
  let '(atcs, cm') := x in
  let* horas_inicio := genera_horas_de_inicio (Grupo.duracion grupo)
                         (Grupo.controladores grupo) tz in
  let* marcador := calcula_marcador grupo now in
  Ok (GrupoDatos.mk sectores atcs horas_inicio marcador, cm').

(** ** [generar_estadillo_personal] *)

Module InfoCompanero.
Record t := mk { nombre : string; actividad : string }.
End InfoCompanero.

(** [PeriodoContextualizado(PeriodoData)]: the inherited fields, then the new
    ones. *)
Module PeriodoContextualizado.
Record t := mk {
  base : PeriodoData.t;
  companeros : list InfoCompanero.t;
  relevo_anterior : option InfoCompanero.t;
  relevo_siguiente : option InfoCompanero.t }.
End PeriodoContextualizado.

Module VistaControladorCompleta.
Record t := mk {
  estadillo_base : EstadilloPersonalData.t;
  periodos_contextualizados : list PeriodoContextualizado.t }.
End VistaControladorCompleta.

Module DatosEstadilloCompleto.
Record t := mk {
  grupos : list GrupoDatos.t;
  vista_controlador : option VistaControladorCompleta.t }.
End DatosEstadilloCompleto.

(** The dataclasses' generated [__eq__]: field by field. *)
Definition periodo_data_eqb (a b : PeriodoData.t) : bool :=
  String.eqb (PeriodoData.hora_inicio a) (PeriodoData.hora_inicio b) &&
  String.eqb (PeriodoData.hora_fin a) (PeriodoData.hora_fin b) &&
  String.eqb (PeriodoData.actividad a) (PeriodoData.actividad b) &&
  String.eqb (PeriodoData.color a) (PeriodoData.color b) &&
  Z.eqb (PeriodoData.duracion a) (PeriodoData.duracion b) &&
  PrimFloat.eqb (PeriodoData.porcentaje a) (PeriodoData.porcentaje b) &&
  String.eqb (PeriodoData.activo a) (PeriodoData.activo b) &&
  Bool.eqb (PeriodoData.scroll_anchor a) (PeriodoData.scroll_anchor b).

Fixpoint lista_eqb {A} (eqb : A -> A -> bool) (l1 l2 : list A) : bool :=
  match l1, l2 with
  | [], [] => true
  | x :: r1, y :: r2 => eqb x y && lista_eqb eqb r1 r2
  | _, _ => false
  end.

Definition personal_eqb (a b : EstadilloPersonalData.t) : bool :=
  String.eqb (EstadilloPersonalData.nombre a) (EstadilloPersonalData.nombre b) &&
  lista_eqb periodo_data_eqb (EstadilloPersonalData.periodos a)
    (EstadilloPersonalData.periodos b) &&
  Bool.eqb (EstadilloPersonalData.usuario_actual a) (EstadilloPersonalData.usuario_actual b).

(** [s.split("-")] *)
Fixpoint split_guion (s : string) : list string :=
  match s with
  | EmptyString => [EmptyString]
  | String c r =>
      if Ascii.eqb c "-"%char then EmptyString :: split_guion r
      else match split_guion r with
           | w :: ws => String c w :: ws
           | [] => [String c EmptyString]
           end
  end.

(** [s.split("-")[-1]] and [s.split("-")[0]] (the list is never empty). *)
Definition trozo_final (s : string) : string := last (split_guion s) EmptyString.
Definition trozo_inicial (s : string) : string := hd EmptyString (split_guion s).

(** The first [atc_data] with [usuario_actual] set, scanning the groups in order. *)
Definition busca_personal (grupos_datos : list GrupoDatos.t)
    : option EstadilloPersonalData.t :=
  find EstadilloPersonalData.usuario_actual (flat_map GrupoDatos.atcs grupos_datos).

(** The colleagues of one of the viewer's periods. *)
Definition companeros_de (grupos_datos : list GrupoDatos.t)
    (mio : EstadilloPersonalData.t) (periodo : PeriodoData.t) : list InfoCompanero.t :=
  flat_map (fun atc_data =>
    if personal_eqb atc_data mio then []
    else flat_map (fun otro =>
           if String.eqb (PeriodoData.hora_inicio otro) (PeriodoData.hora_inicio periodo)
              && String.eqb (PeriodoData.hora_fin otro) (PeriodoData.hora_fin periodo)
              && String.eqb (trozo_final (PeriodoData.actividad otro))
                            (trozo_final (PeriodoData.actividad periodo))
           then [InfoCompanero.mk (EstadilloPersonalData.nombre atc_data)
                                  (trozo_inicial (PeriodoData.actividad otro))]
           else []) (EstadilloPersonalData.periodos atc_data))
    (flat_map GrupoDatos.atcs grupos_datos).

Definition generar_estadillo_personal (est : Estadillo.t)
    (grupos_datos : list GrupoDatos.t) (user : ATC) : Res VistaControladorCompleta.t :=
  match busca_personal grupos_datos with
  | None => Err (String.append "ValueError: No se encontró información para el usuario "
                               (ATC.nombre_apellidos user))
  | Some mio =>
      Ok (VistaControladorCompleta.mk mio
            (map (fun periodo =>
                    PeriodoContextualizado.mk periodo
                      (companeros_de grupos_datos mio periodo) None None)
                 (EstadilloPersonalData.periodos mio)))
  end.

(** ** [genera_datos_estadillo] *)

Fixpoint grupos_datos_de (grupos : list Grupo.t) (cm : ColorManager.t) (tz : TZ)
    (user : option ATC) (now : Z) : Res (list GrupoDatos.t) :=
  match grupos with
  | [] => Ok []
  | g :: r =>
      let* x := genera_datos_grupo g cm tz user now in
      let '(gd, cm') := x in
      let* rest := grupos_datos_de r cm' tz user now in
      Ok (gd :: rest)
  end.

(** The query [session.query(Periodo).filter_by(id_estadillo=...)] is the
    argument [periodos]; [get_timezone(estadillo.dependencia)] is [tz]; the
    instant [datetime.now(tz)] read by the steps is [now]. *)
Definition genera_datos_estadillo (est : Estadillo.t) (periodos : list Periodo.t)
    (user : option ATC) (tz : TZ) (now : Z) : Res DatosEstadilloCompleto.t :=
  let* grupos := identifica_grupos est periodos in
  let* grupos := marca_anchor grupos user now in
  let* grupos_datos := grupos_datos_de grupos color_manager_nuevo tz user now in
  let* mi_estadillo :=
    match user with
    | Some u => let* v := generar_estadillo_personal est grupos_datos u in Ok (Some v)
    | None => Ok None
    end in
  Ok (DatosEstadilloCompleto.mk grupos_datos mi_estadillo).

(** * Predicates used by the statements *)

(** The data model's invariant for one controller's periods: contiguous, each
    of positive length, from the opening instant [a] to the closing instant
    [c]. *)
Fixpoint cadena (a c : Z) (l : list Periodo.t) : Prop :=
  match l with
  | [] => False
  | [p] => Periodo.hora_inicio p = a /\ a < Periodo.hora_fin p /\ Periodo.hora_fin p = c
  | p :: r => Periodo.hora_inicio p = a /\ a < Periodo.hora_fin p /\
              cadena (Periodo.hora_fin p) c r
  end.

(** The periods of one controller, in input order ([periodos_por_controlador]). *)
Definition periodos_de (c : ATC) (periodos : list Periodo.t) : list Periodo.t :=
  filter (fun p => ATC.eqb (Periodo.controlador p) c) periodos.

(** Distinct names in order of first appearance. *)
Definition agrega_si_nuevo (s : string) (l : list string) : list string :=
  if existsb (String.eqb s) l then l else l ++ [s].
Definition distintos (l : list string) : list string :=
  fold_left (fun acc s => agrega_si_nuevo s acc) l [].

Definition entradas_ok (ppc : PPC) (gc : PPC) : Prop :=
  Forall (fun kv => snd kv = dict_dflt [] ppc (fst kv)) gc.

(** What every group of [identifica_grupos] carries: the seed controller [c]
    first, every member with its [periodos_por_controlador] list, and the
    duration from the seed's first listed start to its last listed end. *)
Definition grupo_bien_formado (est : Estadillo.t) (ppc : PPC) (g : Grupo.t) : Prop :=
  Grupo.estadillo g = est /\ Grupo.anchor g = None /\
  entradas_ok ppc (Grupo.controladores g) /\
  exists c pi v rest, Grupo.controladores g = (c, pi :: v) :: rest /\
    Grupo.duracion g = minutos (Periodo.hora_fin (last (pi :: v) pi)) (Periodo.hora_inicio pi).

(** The span the documentation describes: from the earliest first start to
    the latest last end over all members' period lists. *)
Definition duracion_envolvente (g : Grupo.t) : Z :=
  let inicios := flat_map (fun kv => match snd kv with
                                     | [] => [] | p :: _ => [Periodo.hora_inicio p] end)
                          (Grupo.controladores g) in
  let fines := flat_map (fun kv => match rev (snd kv) with
                                   | [] => [] | p :: _ => [Periodo.hora_fin p] end)
                        (Grupo.controladores g) in
  match inicios, fines with
  | a :: r, b :: t => minutos (fold_left Z.max t b) (fold_left Z.min r a)
  | _, _ => 0
  end.

Definition tam (g : Grupo.t) : nat := List.length (Grupo.controladores g).

(** The state of a [ColorManager] reached from [ColorManager()]. *)
Definition inv_colores (cm : ColorManager.t) : Prop :=
  let sc := ColorManager.sector_colors cm in
  NoDup (map fst sc) /\
  map (fun kv => fst (snd kv)) sc = firstn (List.length sc) paleta /\
  ColorManager.available_colors cm = skipn (List.length sc) paleta /\
  (List.length sc <= 20)%nat.

(** The order [ordena] sorts by. *)
Definition antes (p q : Periodo.t) : Prop := Periodo.hora_inicio p <= Periodo.hora_inicio q.

(** The ids of a dictionary's keys, in order. *)
Definition ids_de {V} (d : list (ATC * V)) : list nat := map ATC.id (keys d).

(** The controllers of every group, in order, by id. *)
Definition ids_grupos (gs : list Grupo.t) : list nat :=
  List.concat (map (fun g => ids_de (Grupo.controladores g)) gs).

(** [sectores_por_controlador] as built from [periodos]: no key twice, no
    empty set, and the keys are the controllers with a period in a sector. *)
Definition spc_ok (periodos : list Periodo.t) (spc : SPC) : Prop :=
  NoDup (ids_de spc) /\ Forall (fun kv => snd kv <> []) spc /\
  forall n, In n (ids_de spc) <->
            exists p, In p periodos /\ ATC.id (Periodo.controlador p) = n /\
                      Periodo.sector p <> None.

(** The colour a row shows for its period [p], read from a table [T] of
    sector name to (executive colour, planner colour): white for a rest period,
    otherwise the sector's executive colour for activity ["E"] and its planner
    colour for anything else. *)
Definition color_segun (T : list (string * (string * string))) (p : Periodo.t)
    (c : string) : Prop :=
  if String.eqb (Periodo.actividad p) "D" then c = "white"%string
  else exists s e pl, Periodo.sector p = Some s /\ str_get T (Sector.nombre s) = Some (e, pl) /\
                      c = if String.eqb (Periodo.actividad p) "E" then e else pl.

(** Every row of a group's data, matched with the period it was made from,
    shows the colour [color_segun T] gives. *)
Definition grupo_coloreado (T : list (string * (string * string))) (g : Grupo.t)
    (gd : GrupoDatos.t) : Prop :=
  Forall2 (fun cp e => Forall2 (fun p d => color_segun T p (PeriodoData.color d))
                               (snd cp) (EstadilloPersonalData.periodos e))
          (Grupo.controladores g) (GrupoDatos.atcs gd).

(** The manager [cm'] keeps every sector entry of [cm]. *)
Definition extiende (cm cm' : ColorManager.t) : Prop :=
  forall k v, str_get (ColorManager.sector_colors cm) k = Some v ->
              str_get (ColorManager.sector_colors cm') k = Some v.

(** Each entry of [atcs], traced back to the controller it was built from. *)
Definition fila_de (user : option ATC) (cp : ATC * list Periodo.t)
    (e : EstadilloPersonalData.t) : Prop :=
  EstadilloPersonalData.nombre e = ATC.nombre_apellidos (fst cp) /\
  map PeriodoData.duracion (EstadilloPersonalData.periodos e) =
    map (fun p => minutos (Periodo.hora_fin p) (Periodo.hora_inicio p)) (snd cp) /\
  EstadilloPersonalData.usuario_actual e =
    match user with Some u => ATC.eqb (fst cp) u | None => false end.

(** * Concrete rosters *)

Definition hm (hh mm : Z) : Z := 3600 * hh + 60 * mm.
Definition utc : TZ := fun _ => 0.
Definition sX := Sector.mk 1 "X".
Definition sY := Sector.mk 2 "Y".
Definition atcA := ATC.mk 1 "A".
Definition atcB := ATC.mk 2 "B".
Definition atcC := ATC.mk 3 "C".
Definition est0 := Estadillo.mk 0 (hm 8 0) (hm 10 0).

(** A works X, C works Y, B works X then Y; discovered in the order A, C, B. *)
Definition roster_cadena : list Periodo.t :=
  [Periodo.mk 1 atcA (Some sX) (hm 8 0) (hm 10 0) "E";
   Periodo.mk 2 atcC (Some sY) (hm 8 0) (hm 10 0) "E";
   Periodo.mk 3 atcB (Some sX) (hm 8 0) (hm 9 0) "P";
   Periodo.mk 4 atcB (Some sY) (hm 9 0) (hm 10 0) "P"].

(** B works X from 09:00, A from 08:00, both until the closing 10:00; each
    list is contiguous and ends at the closing instant.  B is discovered
    first. *)
Definition roster_escalonado : list Periodo.t :=
  [Periodo.mk 1 atcB (Some sX) (hm 9 0) (hm 10 0) "E";
   Periodo.mk 2 atcA (Some sX) (hm 8 0) (hm 10 0) "P"].

(** Two contiguous controllers sharing X, 08:00 to 10:00. *)
Definition roster_regular : list Periodo.t :=
  [Periodo.mk 1 atcA (Some sX) (hm 8 0) (hm 9 0) "E";
   Periodo.mk 2 atcA (Some sX) (hm 9 0) (hm 10 0) "P";
   Periodo.mk 3 atcB (Some sX) (hm 8 0) (hm 9 0) "P";
   Periodo.mk 4 atcB (Some sX) (hm 9 0) (hm 10 0) "E"].

(** The ids of each group's controllers, in order. *)
Definition ids_de_grupos (r : Res (list Grupo.t)) : list (list nat) :=
  match r with
  | Ok gs => map (fun g => map ATC.id (keys (Grupo.controladores g))) gs
  | Err _ => []
  end.

(** Two groups: the larger one idle at 09:30, the smaller one working. *)
Definition grupo_grande : Grupo.t :=
  Grupo.mk est0 [sX]
    [(atcA, [Periodo.mk 1 atcA (Some sX) (hm 8 0) (hm 9 0) "E"]);
     (atcB, [Periodo.mk 2 atcB (Some sX) (hm 8 0) (hm 9 0) "P"])] 60 None.
Definition grupo_chico : Grupo.t :=
  Grupo.mk est0 [sY]
    [(atcC, [Periodo.mk 3 atcC (Some sY) (hm 9 0) (hm 10 0) "E"])] 60 None.

(** One controller on a single 24-hour shift, 08:00 to 08:00 the next day. *)
Definition est_dia := Estadillo.mk 1 (hm 8 0) (hm 32 0).
Definition roster_dia : list Periodo.t :=
  [Periodo.mk 1 atcA (Some sX) (hm 8 0) (hm 32 0) "E"].

Definition nombres_sector (n : nat) : list string :=
  map (fun k => String (ascii_of_nat (65 + k)) EmptyString) (seq 0 n).

(** * Properties *)

Ltac desbool :=
  repeat match goal with
  | |- context [if ?b then _ else _] => destruct b eqn:?
  | H : context [if ?b then _ else _] |- _ => destruct b eqn:?
  | H : (_ || _)%bool = true |- _ => apply orb_true_iff in H; destruct H
  | H : (_ || _)%bool = false |- _ => apply orb_false_iff in H; destruct H
  | H : (_ <? _) = true |- _ => apply Z.ltb_lt in H
  | H : (_ <? _) = false |- _ => apply Z.ltb_ge in H
  end.

(** ** Group discovery *)

(** C1 (the claim fails on the code): with the discovery order A, C, B, A shares X
    with B and B shares Y with C, but the single scan over the worklist never
    revisits C, which was examined before B joined: the groups are {A, B}
    and {C}. *)
Theorem identifica_grupos_no_transitivo :
  ids_de_grupos (identifica_grupos est0 roster_cadena) = [[1; 2]; [3]]%nat.
Proof. vm_compute. reflexivity. Qed.

(** ** Classification of a period *)

(** C5: [_es_activo] returns FUT when [now] is outside the group's span
    [[grupo_hora_inicio, grupo_hora_fin]] (so a [now] after the closing time
    gives FUT, never PAS); inside it, PAS when the period ended before [now],
    FUT when it starts after [now], ACT otherwise. *)
Theorem es_activo_orden_de_reglas : forall s e gs ge now : Z,
  ((now < gs \/ ge < now) -> es_activo s e gs ge now = "FUT"%string) /\
  (gs <= now <= ge -> e < now -> es_activo s e gs ge now = "PAS"%string) /\
  (gs <= now <= ge -> now <= e -> now < s -> es_activo s e gs ge now = "FUT"%string) /\
  (gs <= now <= ge -> now <= e -> s <= now -> es_activo s e gs ge now = "ACT"%string) /\
  (ge < now -> es_activo s e gs ge now <> "PAS"%string).
Proof.
  intros s e gs ge now; unfold es_activo.
  repeat split; intros; desbool; try reflexivity; try lia; discriminate.
Qed.

(** C4 (corrected): [_es_activo] always returns one of PAS, ACT, FUT, and it
    returns ACT exactly when [now] lies both in the group's span
    [[gs, ge]] and in the period [[s, e]], bounds included; for a period
    inside the group's span, ACT exactly when [s <= now <= e]. *)
Theorem es_activo_total_y_activo : forall s e gs ge now : Z,
  In (es_activo s e gs ge now) ["PAS"; "ACT"; "FUT"]%string /\
  (es_activo s e gs ge now = "ACT"%string <-> (gs <= now <= ge /\ s <= now <= e)) /\
  (gs <= s -> e <= ge -> (es_activo s e gs ge now = "ACT"%string <-> s <= now <= e)).
Proof.
  intros s e gs ge now; unfold es_activo.
  repeat split; intros; desbool; simpl; auto; try lia;
    repeat match goal with H : _ /\ _ |- _ => destruct H end;
    try discriminate; lia.
Qed.

(** C4 (the claim as stated fails): a period 09:00-10:00 in a group whose span is
    07:30-08:00, at [now] = 09:30, is FUT although [start <= now <= end]. *)
Theorem es_activo_fuera_del_grupo :
  hm 9 0 <= hm 9 30 <= hm 10 0 /\
  es_activo (hm 9 0) (hm 10 0) (hm 7 30) (hm 8 0) (hm 9 30) = "FUT"%string.
Proof. split; [unfold hm; lia | reflexivity]. Qed.

(** ** Empty roster *)

(** C8 (corrected): on an empty period list, group discovery returns no group,
    anchor marking and per-group data generation return empty lists, and the
    whole pipeline without a viewer returns no group and no personal view;
    with a viewer, [generar_estadillo_personal] raises its ValueError (the
    viewer is not found) and so does the pipeline. *)
Theorem estadillo_vacio : forall (est : Estadillo.t) (user : option ATC) (u : ATC)
    (tz : TZ) (now : Z) (cm : ColorManager.t),
  identifica_grupos est [] = Ok [] /\
  marca_anchor [] user now = Ok [] /\
  grupos_datos_de [] cm tz user now = Ok [] /\
  genera_datos_estadillo est [] None tz now = Ok (DatosEstadilloCompleto.mk [] None) /\
  generar_estadillo_personal est [] u =
    Err (String.append "ValueError: No se encontró información para el usuario "
                       (ATC.nombre_apellidos u)) /\
  genera_datos_estadillo est [] (Some u) tz now =
    Err (String.append "ValueError: No se encontró información para el usuario "
                       (ATC.nombre_apellidos u)).
Proof.
  intros; repeat split; try reflexivity.
  unfold marca_anchor; destruct user; reflexivity.
Qed.

(** C8 (the claim as stated fails): with the viewer A supplied, the pipeline on
    an empty roster raises instead of returning empty output. *)
Theorem estadillo_vacio_con_usuario :
  genera_datos_estadillo est0 [] (Some atcA) utc (hm 9 0) =
    Err "ValueError: No se encontró información para el usuario A"%string.
Proof. vm_compute. reflexivity. Qed.

(** ** Anchor selection *)

Lemma rama_usuario_eq : forall u grupos activos,
  rama_usuario u grupos activos =
  match find (fun p => ATC.eqb (Periodo.controlador p) u) activos with
  | Some p => option_map (fun i => marca_en i p grupos) (indice_de_usuario u grupos)
  | None => None
  end.
Proof.
  intros u grupos activos; induction activos as [|p r IH]; simpl; [reflexivity|].
  destruct (ATC.eqb (Periodo.controlador p) u); [|exact IH].
  destruct (indice_de_usuario u grupos); [reflexivity|].
  rewrite IH; destruct (find _ r); reflexivity.
Qed.

Lemma indice_max_aux_spec : forall r pre best gb,
  nth_error pre best = Some gb ->
  (forall g, In g pre -> (tam g <= tam gb)%nat) ->
  (forall j g, (j < best)%nat -> nth_error pre j = Some g -> (tam g < tam gb)%nat) ->
  exists gk, nth_error (pre ++ r) (indice_max_aux (List.length pre) best (tam gb) r) = Some gk /\
    (forall g, In g (pre ++ r) -> (tam g <= tam gk)%nat) /\
    (forall j g, (j < indice_max_aux (List.length pre) best (tam gb) r)%nat ->
       nth_error (pre ++ r) j = Some g -> (tam g < tam gk)%nat).
Proof.
  induction r as [|g r IH]; intros pre best gb Hb Hle Hlt.
  - simpl; rewrite app_nil_r; exists gb; auto.
  - simpl. fold (tam g).
    assert (Hbl : (best < List.length pre)%nat)
      by (apply nth_error_Some; congruence).
    replace (pre ++ g :: r) with ((pre ++ [g]) ++ r) by (rewrite <- app_assoc; reflexivity).
    destruct (Nat.ltb (tam gb) (tam g)) eqn:E.
    + apply Nat.ltb_lt in E.
      replace (S (List.length pre)) with (List.length (pre ++ [g]))
        by (rewrite length_app; simpl; lia).
      apply (IH (pre ++ [g]) (List.length pre) g).
      * rewrite nth_error_app2 by lia; rewrite Nat.sub_diag; reflexivity.
      * intros g' Hin; apply in_app_or in Hin; destruct Hin as [Hin|[<-|[]]];
          [specialize (Hle g' Hin); lia | lia].
      * intros j g' Hj Hn; rewrite nth_error_app1 in Hn by lia.
        assert (In g' pre) by (eapply nth_error_In; eauto).
        specialize (Hle g' H); lia.
    + apply Nat.ltb_ge in E.
      replace (S (List.length pre)) with (List.length (pre ++ [g]))
        by (rewrite length_app; simpl; lia).
      apply IH.
      * rewrite nth_error_app1 by lia; exact Hb.
      * intros g' Hin; apply in_app_or in Hin; destruct Hin as [Hin|[<-|[]]]; auto.
      * intros j g' Hj Hn; rewrite nth_error_app1 in Hn by lia; eauto.
Qed.

Lemma indice_max_spec : forall grupos i,
  indice_max grupos = Ok i ->
  exists gmax, nth_error grupos i = Some gmax /\
    (forall g, In g grupos -> (tam g <= tam gmax)%nat) /\
    (forall j g, (j < i)%nat -> nth_error grupos j = Some g -> (tam g < tam gmax)%nat).
Proof.
  intros [|g r] i H; simpl in H; [discriminate|].
  injection H as <-.
  destruct (indice_max_aux_spec r [g] 0 g) as (gk & H1 & H2 & H3); simpl; auto.
  - intros g' [<-|[]]; lia.
  - intros j g' Hj; lia.
  - exists gk; split; [exact H1|split; [exact H2|exact H3]].
Qed.

Lemma periodos_activos_nil : forall now, periodos_activos [] now = [].
Proof. reflexivity. Qed.

(** What [marca_anchor] does, case by case, with [activos] the periods active
    at [now] (bounds included), in group order:
    - if no period is active, no anchor is set;
    - if the viewer [u] owns an active period and belongs to a group, the
      first group containing [u] gets as anchor [u]'s first active period,
      whatever the sizes of the other groups;
    - otherwise, if some period is active, the code takes the first group of
      greatest member count among ALL groups (active or not) and sets its anchor
      to its first active period; when that group has no active period no
      anchor is set at all. *)
Theorem marca_anchor_seleccion : forall (grupos : list Grupo.t) (user : option ATC) (now : Z),
  (periodos_activos grupos now = [] -> marca_anchor grupos user now = Ok grupos) /\
  (forall u p i, user = Some u ->
     find (fun q => ATC.eqb (Periodo.controlador q) u) (periodos_activos grupos now) = Some p ->
     indice_de_usuario u grupos = Some i ->
     marca_anchor grupos user now = Ok (marca_en i p grupos)) /\
  ((forall u, user = Some u ->
      find (fun q => ATC.eqb (Periodo.controlador q) u) (periodos_activos grupos now) = None \/
      indice_de_usuario u grupos = None) ->
   periodos_activos grupos now <> [] ->
   exists i gmax,
     nth_error grupos i = Some gmax /\
     (forall g, In g grupos -> (tam g <= tam gmax)%nat) /\
     (forall j g, (j < i)%nat -> nth_error grupos j = Some g -> (tam g < tam gmax)%nat) /\
     marca_anchor grupos user now =
       Ok (match find (fun q => dict_mem (Grupo.controladores gmax) (Periodo.controlador q))
                      (periodos_activos grupos now) with
           | Some p => marca_en i p grupos
           | None => grupos
           end)).
Proof.
  intros grupos user now; split; [|split].
  - intros H; unfold marca_anchor; rewrite H.
    destruct user as [u|]; [rewrite rama_usuario_eq; simpl|]; reflexivity.
  - intros u p i -> Hf Hi; unfold marca_anchor.
    rewrite rama_usuario_eq, Hf, Hi; reflexivity.
  - intros Hu Hne.
    assert (Hr : match user with
                 | Some u => rama_usuario u grupos (periodos_activos grupos now)
                 | None => None end = None).
    { destruct user as [u|]; [|reflexivity].
      rewrite rama_usuario_eq.
      destruct (Hu u eq_refl) as [H|H]; rewrite H; [reflexivity|].
      destruct (find _ _); reflexivity. }
    assert (Hg : grupos <> []) by (intros ->; apply Hne; reflexivity).
    destruct (indice_max grupos) as [i|e] eqn:Ei;
      [|destruct grupos; [contradiction|discriminate]].
    destruct (indice_max_spec grupos i Ei) as (gmax & H1 & H2 & H3).
    exists i, gmax; split; [exact H1|split; [exact H2|split; [exact H3|]]].
    unfold marca_anchor; rewrite Hr.
    destruct (periodos_activos grupos now) as [|a l] eqn:Ea; [contradiction|].
    unfold bind; rewrite Ei; cbv beta iota; rewrite H1.
    destruct (find _ (a :: l)); reflexivity.
Qed.

(** C3 (a slip of the code): at 09:30 without a viewer, the larger group
    (A, B) has no active period and the smaller group (C) has one.  The claim,
    like the docstring's intent, wants the anchor on the only group with an
    active period; the code takes [max] over all groups, finds the idle larger
    group, and sets no anchor at all: both groups come back unchanged, with no
    anchor. *)
Theorem marca_anchor_grupo_grande_inactivo :
  (List.length (Grupo.controladores grupo_chico) < List.length (Grupo.controladores grupo_grande))%nat /\
  periodos_activos [grupo_grande] (hm 9 30) = [] /\
  periodos_activos [grupo_chico] (hm 9 30) <> [] /\
  Grupo.anchor grupo_grande = None /\ Grupo.anchor grupo_chico = None /\
  marca_anchor [grupo_grande; grupo_chico] None (hm 9 30) = Ok [grupo_grande; grupo_chico].
Proof.
  split; [simpl; lia|].
  split; [vm_compute; reflexivity|].
  split; [vm_compute; discriminate|].
  split; [reflexivity|split; [reflexivity|vm_compute; reflexivity]].
Qed.

(** ** Colour allocation *)

Lemma str_get_set_eq : forall {V} (d : list (string * V)) k v,
  str_get (str_set d k v) k = Some v.
Proof.
  induction d as [|[k' v'] r IH]; intros k v; simpl.
  - rewrite String.eqb_refl; reflexivity.
  - destruct (String.eqb k k') eqn:E; simpl.
    + apply String.eqb_eq in E; subst; rewrite String.eqb_refl; reflexivity.
    + rewrite E; apply IH.
Qed.

Lemma str_get_set_neq : forall {V} (d : list (string * V)) k k' v,
  k' <> k -> str_get (str_set d k v) k' = str_get d k'.
Proof.
  induction d as [|[k0 v0] r IH]; intros k k' v Hne; simpl.
  - apply String.eqb_neq in Hne; rewrite Hne; reflexivity.
  - destruct (String.eqb k k0) eqn:E; simpl.
    + apply String.eqb_eq in E; subst.
      apply String.eqb_neq in Hne; rewrite Hne; reflexivity.
    + destruct (String.eqb k' k0); [reflexivity|apply IH; exact Hne].
Qed.

Lemma str_set_nuevo : forall {V} (d : list (string * V)) k v,
  str_get d k = None -> str_set d k v = d ++ [(k, v)].
Proof.
  induction d as [|[k0 v0] r IH]; intros k v H; simpl in *; [reflexivity|].
  destruct (String.eqb k k0); [discriminate|].
  rewrite IH; auto.
Qed.

Lemma str_get_none_iff : forall {V} (d : list (string * V)) k,
  str_get d k = None <-> existsb (String.eqb k) (map fst d) = false.
Proof.
  induction d as [|[k0 v0] r IH]; intros k; simpl; [tauto|].
  destruct (String.eqb k k0); simpl; [split; discriminate|apply IH].
Qed.

Lemma str_get_nth : forall {V} (d : list (string * V)) n k v,
  NoDup (map fst d) -> nth_error d n = Some (k, v) -> str_get d k = Some v.
Proof.
  induction d as [|[k0 v0] r IH]; intros [|n] k v Hnd Hn; simpl in *;
    try discriminate.
  - injection Hn as -> ->; rewrite String.eqb_refl; reflexivity.
  - inversion Hnd as [|? ? Hnot Hnd']; subst.
    destruct (String.eqb k k0) eqn:E.
    + apply String.eqb_eq in E; subst.
      exfalso; apply Hnot.
      apply (f_equal (option_map fst)) in Hn; rewrite <- nth_error_map in Hn.
      eapply nth_error_In; exact Hn.
    + eapply IH; eauto.
Qed.

Lemma inv_colores_nuevo : inv_colores color_manager_nuevo.
Proof. unfold inv_colores; simpl; repeat split; [constructor | lia]. Qed.

Lemma paleta_oscurece : forall c, In c paleta -> exists d, darken_color c = Ok d.
Proof.
  intros c Hc; repeat (destruct Hc as [<-|Hc]; [eexists; vm_compute; reflexivity|]);
    destruct Hc.
Qed.

Lemma firstn_S_nth : forall (l : list string) n x r,
  skipn n l = x :: r -> firstn (S n) l = firstn n l ++ [x].
Proof.
  induction l as [|a l IH]; intros [|n] x r H; simpl in *; try discriminate.
  - injection H as -> ->; reflexivity.
  - f_equal; eapply IH; exact H.
Qed.

Lemma skipn_S_cons : forall (l : list string) n x r,
  skipn n l = x :: r -> skipn (S n) l = r.
Proof.
  induction l as [|a l IH]; intros [|n] x r H; simpl in *; try discriminate.
  - injection H as -> ->; reflexivity.
  - eapply IH; exact H.
Qed.

(** A colour already assigned is returned again and nothing changes. *)
Lemma get_color_conocido : forall cm s b e pl,
  str_get (ColorManager.sector_colors cm) s = Some (e, pl) ->
  get_color cm s b = Ok (if b then e else pl, cm).
Proof. intros cm s b e pl H; unfold get_color; rewrite H; simpl; rewrite H; reflexivity. Qed.

(** A call never changes the entry of another sector already assigned. *)
Lemma get_color_conserva : forall cm s b c cm' k v,
  get_color cm s b = Ok (c, cm') ->
  str_get (ColorManager.sector_colors cm) k = Some v ->
  str_get (ColorManager.sector_colors cm') k = Some v.
Proof.
  intros cm s b c cm' k v H Hk; unfold get_color in H.
  destruct (str_get (ColorManager.sector_colors cm) s) as [w|] eqn:Es.
  - simpl in H; rewrite Es in H; destruct w; injection H as _ <-; exact Hk.
  - destruct (ColorManager.available_colors cm) as [|c0 rest]; [discriminate|].
    destruct (darken_color c0) as [d|]; simpl in H; [|discriminate].
    rewrite str_get_set_eq in H; injection H as _ <-; simpl.
    rewrite str_get_set_neq; [exact Hk|congruence].
Qed.

Lemma get_colors_conserva : forall calls cm cs cm' k v,
  get_colors cm calls = Ok (cs, cm') ->
  str_get (ColorManager.sector_colors cm) k = Some v ->
  str_get (ColorManager.sector_colors cm') k = Some v.
Proof.
  induction calls as [|[s b] r IH]; intros cm cs cm' k v H Hk; simpl in H.
  - injection H as _ <-; exact Hk.
  - destruct (get_color cm s b) as [[c cm1]|] eqn:E; [|discriminate]; simpl in H.
    destruct (get_colors cm1 r) as [[cs1 cm2]|] eqn:E2; [|discriminate].
    simpl in H; injection H as _ <-.
    eapply IH; [exact E2|]; eapply get_color_conserva; eauto.
Qed.

Lemma skipn_nth_cons : forall (l : list string) n,
  (n < List.length l)%nat -> skipn n l = nth n l ""%string :: skipn (S n) l.
Proof.
  induction l as [|a l IH]; intros [|n] H; simpl in *; try lia; [reflexivity|].
  apply IH; lia.
Qed.

Lemma existsb_false_no_in : forall k l,
  existsb (String.eqb k) l = false -> ~ In k l.
Proof.
  intros k l H Hin.
  assert (existsb (String.eqb k) l = true) by (apply existsb_exists; exists k;
    split; [exact Hin|apply String.eqb_refl]).
  congruence.
Qed.

Lemma NoDup_snoc : forall (l : list string) x, NoDup l -> ~ In x l -> NoDup (l ++ [x]).
Proof.
  induction l as [|a l IH]; intros x Hnd Hx; simpl; [repeat constructor; auto|].
  inversion Hnd; subst; constructor.
  - rewrite in_app_iff; intros [H|[H|[]]]; [contradiction|subst; apply Hx; left; reflexivity].
  - apply IH; auto; intros H; apply Hx; right; exact H.
Qed.

(** A new sector takes the next palette entry while one is left; with the
    twenty entries used, [available_colors.pop(0)] raises. *)
Lemma get_color_nuevo : forall cm s b,
  inv_colores cm -> str_get (ColorManager.sector_colors cm) s = None ->
  let n := List.length (ColorManager.sector_colors cm) in
  ((n < 20)%nat -> exists d cm',
      get_color cm s b = Ok (if b then nth n paleta ""%string else d, cm') /\
      ColorManager.sector_colors cm' =
        ColorManager.sector_colors cm ++ [(s, (nth n paleta ""%string, d))] /\
      inv_colores cm') /\
  (n = 20%nat -> get_color cm s b = Err "IndexError: pop from empty list").
Proof.
  intros cm s b (Hnd & Hex & Hav & Hle) Hs n; split.
  - intros Hn.
    assert (Hsk : skipn n paleta = nth n paleta ""%string :: skipn (S n) paleta)
      by (apply skipn_nth_cons; exact Hn).
    destruct (paleta_oscurece (nth n paleta ""%string)) as [d Hd];
      [apply nth_In; exact Hn|].
    exists d, (ColorManager.mk (ColorManager.sector_colors cm ++
                                 [(s, (nth n paleta ""%string, d))])
                               (ColorManager.used_colors cm) (skipn (S n) paleta)).
    unfold get_color; rewrite Hs; fold n in Hav; rewrite Hav, Hsk, Hd; simpl.
    rewrite str_get_set_eq.
    rewrite (str_set_nuevo _ _ _ Hs).
    split; [reflexivity|split; [reflexivity|]].
    unfold inv_colores; simpl; rewrite !map_app, length_app; simpl.
    apply str_get_none_iff in Hs; apply existsb_false_no_in in Hs.
    split; [apply NoDup_snoc; auto|].
    split; [|split; [fold n; rewrite Nat.add_1_r; reflexivity|fold n; lia]].
    fold n in Hex; rewrite Hex, Nat.add_1_r.
    symmetry; eapply firstn_S_nth; exact Hsk.
  - intros Hn; unfold get_color; rewrite Hs; fold n in Hav; rewrite Hav, Hn.
    reflexivity.
Qed.

Lemma agrega_crece : forall l acc,
  (List.length acc <= List.length (fold_left (fun a s => agrega_si_nuevo s a) l acc))%nat.
Proof.
  induction l as [|s l IH]; intros acc; simpl; [lia|].
  etransitivity; [|apply IH].
  unfold agrega_si_nuevo; destruct (existsb _ _); [lia|rewrite length_app; simpl; lia].
Qed.

(** A run of calls from a reachable state: it succeeds exactly while at most
    twenty distinct sectors have been seen, and then the keys of the map are
    the distinct sectors in order of first request. *)
Lemma get_colors_corrida : forall calls cm,
  inv_colores cm ->
  let ks := fold_left (fun a s => agrega_si_nuevo s a) (map fst calls)
                      (map fst (ColorManager.sector_colors cm)) in
  ((List.length ks <= 20)%nat ->
     exists cs cm', get_colors cm calls = Ok (cs, cm') /\
       List.length cs = List.length calls /\ inv_colores cm' /\
       map fst (ColorManager.sector_colors cm') = ks) /\
  ((20 < List.length ks)%nat ->
     get_colors cm calls = Err "IndexError: pop from empty list").
Proof.
  induction calls as [|[s b] r IH]; intros cm Hinv ks.
  - split; [intros _; exists [], cm; auto|simpl in ks; subst ks].
    intros H; destruct Hinv as (Hnd & Hex & Hav & Hle).
    rewrite length_map in H; lia.
  - simpl in ks.
    destruct (str_get (ColorManager.sector_colors cm) s) as [[e pl]|] eqn:Es.
    + assert (Hag : agrega_si_nuevo s (map fst (ColorManager.sector_colors cm))
                    = map fst (ColorManager.sector_colors cm)).
      { unfold agrega_si_nuevo.
        destruct (existsb _ _) eqn:Ex; [reflexivity|].
        apply str_get_none_iff in Ex; congruence. }
      subst ks; rewrite Hag.
      destruct (IH cm Hinv) as [IH1 IH2].
      simpl; rewrite (get_color_conocido cm s b e pl Es); simpl.
      split.
      * intros H; destruct (IH1 H) as (cs & cm' & H1 & H2 & H3 & H4).
        rewrite H1; simpl; exists ((if b then e else pl) :: cs), cm'; simpl; auto.
      * intros H; rewrite (IH2 H); reflexivity.
    + pose proof (get_color_nuevo cm s b Hinv Es) as [Hlt Heq].
      assert (Hag : agrega_si_nuevo s (map fst (ColorManager.sector_colors cm))
                    = map fst (ColorManager.sector_colors cm) ++ [s]).
      { unfold agrega_si_nuevo; apply str_get_none_iff in Es; rewrite Es; reflexivity. }
      subst ks; rewrite Hag.
      destruct Hinv as (Hnd & Hex & Hav & Hle) eqn:Hinv'.
      destruct (Nat.lt_ge_cases (List.length (ColorManager.sector_colors cm)) 20) as [Hn|Hn].
      * destruct (Hlt Hn) as (d & cm' & G1 & G2 & G3).
        destruct (IH cm' G3) as [IH1 IH2].
        rewrite G2, map_app in IH1, IH2; simpl in IH1, IH2.
        cbn [get_colors]; rewrite G1; cbn [bind].
        split.
        -- intros H; destruct (IH1 H) as (cs & cm'' & H1 & H2 & H3 & H4).
           rewrite H1; cbn [bind]; eexists _, cm''; split; [reflexivity|].
           cbn [List.length]; auto.
        -- intros H; rewrite (IH2 H); reflexivity.
      * assert (Hn20 : List.length (ColorManager.sector_colors cm) = 20%nat) by lia.
        simpl; rewrite (Heq Hn20); simpl.
        pose proof (agrega_crece (map fst r) (map fst (ColorManager.sector_colors cm) ++ [s]))
          as Hc.
        rewrite length_app, length_map in Hc; simpl in Hc.
        split; [intros H; lia|reflexivity].
Qed.

Lemma get_color_asigna : forall cm s b c cm1,
  get_color cm s b = Ok (c, cm1) ->
  exists e pl, str_get (ColorManager.sector_colors cm1) s = Some (e, pl) /\
               c = if b then e else pl.
Proof.
  intros cm s b c cm1 H; unfold get_color in H.
  destruct (str_get (ColorManager.sector_colors cm) s) as [w|] eqn:Es.
  - simpl in H; rewrite Es in H; destruct w as [e pl]; injection H as <- <-.
    exists e, pl; auto.
  - destruct (ColorManager.available_colors cm) as [|c0 rest]; [discriminate|].
    destruct (darken_color c0) as [d|]; simpl in H; [|discriminate].
    rewrite str_get_set_eq in H; injection H as <- <-; simpl.
    exists c0, d; rewrite str_get_set_eq; auto.
Qed.

(** C7 (corrected): within one [ColorManager], once [get_color s b] has
    returned a colour, every later call with the same sector and flag (after
    any other calls) returns the same colour and leaves the manager as it is,
    and the sector's entry never changes.  From [ColorManager()], the
    executive colour of the k-th distinct sector (in order of first request)
    is the k-th palette entry; the first ten entries are pairwise different
    and entry k+10 repeats entry k, so the first ten distinct sectors get
    distinct executive colours and the eleventh reuses the first one's while
    nine entries are still unused. *)
Theorem get_color_determinista_y_paleta :
  (forall cm s b c cm1 calls cs cm2,
     get_color cm s b = Ok (c, cm1) -> get_colors cm1 calls = Ok (cs, cm2) ->
     get_color cm1 s b = Ok (c, cm1) /\ get_color cm2 s b = Ok (c, cm2) /\
     str_get (ColorManager.sector_colors cm2) s = str_get (ColorManager.sector_colors cm1) s) /\
  (forall calls cs cm k s,
     get_colors color_manager_nuevo calls = Ok (cs, cm) ->
     nth_error (distintos (map fst calls)) k = Some s ->
     exists pl, str_get (ColorManager.sector_colors cm) s = Some (nth k paleta ""%string, pl)) /\
  NoDup (firstn 10 paleta) /\
  (forall k, (k < 10)%nat -> nth k paleta ""%string = nth (k + 10) paleta ""%string).
Proof.
  split; [|split; [|split]].
  - intros cm s b c cm1 calls cs cm2 H1 H2.
    destruct (get_color_asigna _ _ _ _ _ H1) as (e & pl & He & ->).
    pose proof (get_colors_conserva _ _ _ _ _ _ H2 He) as He2.
    split; [apply get_color_conocido; exact He|].
    split; [apply get_color_conocido; exact He2|congruence].
  - intros calls cs cm k s H Hk.
    destruct (get_colors_corrida calls color_manager_nuevo inv_colores_nuevo) as [G1 G2].
    simpl in G1, G2; fold (distintos (map fst calls)) in G1, G2.
    destruct (Nat.le_gt_cases (List.length (distintos (map fst calls))) 20) as [Hl|Hl];
      [|rewrite (G2 Hl) in H; discriminate].
    destruct (G1 Hl) as (cs' & cm' & E & _ & (Hnd & Hex & _ & _) & Hks).
    rewrite E in H; injection H as _ <-.
    rewrite <- Hks in Hk.
    rewrite nth_error_map in Hk.
    destruct (nth_error (ColorManager.sector_colors cm') k) as [[s' [e pl]]|] eqn:En;
      [|discriminate]; simpl in Hk; injection Hk as ->.
    exists pl.
    assert (Hkl : (k < List.length (ColorManager.sector_colors cm'))%nat)
      by (apply nth_error_Some; congruence).
    assert (Hx : nth_error (map (fun kv => fst (snd kv)) (ColorManager.sector_colors cm')) k
                 = Some e) by (rewrite nth_error_map, En; reflexivity).
    rewrite Hex, nth_error_firstn in Hx.
    destruct (Nat.ltb k (List.length (ColorManager.sector_colors cm'))) eqn:Ek;
      [|apply Nat.ltb_ge in Ek; lia].
    apply nth_error_nth with (d := ""%string) in Hx; rewrite Hx.
    eapply str_get_nth; eauto.
  - vm_compute; repeat constructor; simpl; intuition discriminate.
  - intros k Hk; do 10 (destruct k as [|k]; [reflexivity|]); lia.
Qed.

(** C7 (the claim as stated fails): eleven distinct sectors requested as
    executive from [ColorManager()]: the first and the eleventh both get
    ["#FF5733"], while nine palette entries are still unused. *)
Theorem get_color_repite_tras_diez :
  match get_colors color_manager_nuevo
          (map (fun s => (s, true)) (nombres_sector 11)) with
  | Ok (cs, cm) =>
      nth 0 cs ""%string = "#FF5733"%string /\ nth 10 cs ""%string = "#FF5733"%string /\
      List.length (ColorManager.available_colors cm) = 9%nat
  | Err _ => False
  end.
Proof. vm_compute. repeat split. Qed.

(** C9: from [ColorManager()], a sequence of [get_color] calls returns a colour
    for every call exactly when at most twenty distinct sectors are requested;
    with a twenty-first distinct sector, [available_colors.pop(0)] raises
    IndexError.  Step by step: for a sector not yet seen, the call succeeds
    iff fewer than twenty sectors have been seen. *)
Theorem get_color_agotamiento :
  (forall calls : list (string * bool),
     ((List.length (distintos (map fst calls)) <= 20)%nat ->
        exists cs cm, get_colors color_manager_nuevo calls = Ok (cs, cm) /\
                      List.length cs = List.length calls) /\
     ((20 < List.length (distintos (map fst calls)))%nat ->
        get_colors color_manager_nuevo calls = Err "IndexError: pop from empty list")) /\
  (forall cm s b,
     inv_colores cm -> str_get (ColorManager.sector_colors cm) s = None ->
     ((exists c cm', get_color cm s b = Ok (c, cm')) <->
      (List.length (ColorManager.sector_colors cm) < 20)%nat)).
Proof.
  split.
  - intros calls.
    destruct (get_colors_corrida calls color_manager_nuevo inv_colores_nuevo) as [G1 G2].
    simpl in G1, G2; fold (distintos (map fst calls)) in G1, G2.
    split; [|exact G2].
    intros H; destruct (G1 H) as (cs & cm & E & L & _); eauto.
  - intros cm s b Hinv Hs.
    destruct (get_color_nuevo cm s b Hinv Hs) as [Hlt Heq].
    split.
    + intros (c & cm' & E).
      destruct (Nat.lt_ge_cases (List.length (ColorManager.sector_colors cm)) 20) as [H|H];
        [exact H|].
      destruct Hinv as (_ & _ & _ & Hle).
      rewrite (Heq ltac:(lia)) in E; discriminate.
    + intros H; destruct (Hlt H) as (d & cm' & E & _); eauto.
Qed.

(** ** Group discovery: what every produced group carries *)

Lemma atc_eqb_refl : forall c, ATC.eqb c c = true.
Proof. intros c; apply Nat.eqb_refl. Qed.

Lemma dict_get_id : forall {V} (d : list (ATC * V)) c c',
  ATC.id c = ATC.id c' -> dict_get d c = dict_get d c'.
Proof.
  induction d as [|[k v] r IH]; intros c c' H; simpl; [reflexivity|].
  unfold ATC.eqb; rewrite H; destruct (Nat.eqb (ATC.id c') (ATC.id k)); auto.
Qed.

Lemma dict_dflt_set : forall {V} (dflt : V) d k v c,
  dict_dflt dflt (dict_set d k v) c = if ATC.eqb c k then v else dict_dflt dflt d c.
Proof.
  intros V dflt d k v c; unfold dict_dflt.
  induction d as [|[k' v'] r IH]; simpl.
  - destruct (ATC.eqb c k); reflexivity.
  - unfold ATC.eqb in *.
    destruct (Nat.eqb (ATC.id k) (ATC.id k')) eqn:E1; simpl; unfold ATC.eqb.
    + apply Nat.eqb_eq in E1; rewrite E1; destruct (Nat.eqb (ATC.id c) (ATC.id k')); reflexivity.
    + destruct (Nat.eqb (ATC.id c) (ATC.id k')) eqn:E2; [|exact IH].
      apply Nat.eqb_eq in E2.
      destruct (Nat.eqb (ATC.id c) (ATC.id k)) eqn:E3; [|reflexivity].
      apply Nat.eqb_eq in E3; apply Nat.eqb_neq in E1; lia.
Qed.

(** [periodos_por_controlador[c]] lists [c]'s periods in input order. *)
Lemma reparte_periodos : forall periodos c,
  dict_dflt [] (snd (reparte periodos)) c = periodos_de c periodos.
Proof.
  intros periodos c; unfold reparte.
  assert (G : forall l acc, dict_dflt [] (snd (fold_left reparte_paso l acc)) c =
                            dict_dflt [] (snd acc) c ++ periodos_de c l).
  { induction l as [|p l IH]; intros [spc ppc]; simpl; [rewrite app_nil_r; reflexivity|].
    rewrite IH; simpl; rewrite dict_dflt_set.
    unfold ATC.eqb; rewrite (Nat.eqb_sym (ATC.id c)).
    destruct (Nat.eqb (ATC.id (Periodo.controlador p)) (ATC.id c)) eqn:E; simpl.
    - apply Nat.eqb_eq in E.
      unfold dict_dflt; rewrite (dict_get_id ppc (Periodo.controlador p) c E).
      rewrite <- app_assoc; reflexivity.
    - reflexivity. }
  rewrite G; reflexivity.
Qed.

Lemma dict_set_in : forall {V} (d : list (ATC * V)) k v kv,
  In kv (dict_set d k v) -> In kv d \/ (ATC.id (fst kv) = ATC.id k /\ snd kv = v).
Proof.
  induction d as [|[k' v'] r IH]; intros k v kv H; simpl in *.
  - destruct H as [<-|[]]; right; auto.
  - destruct (ATC.eqb k k') eqn:E; simpl in H.
    + destruct H as [<-|H]; [|auto].
      right; simpl; apply Nat.eqb_eq in E; auto.
    + destruct H as [<-|H]; [auto|].
      destruct (IH _ _ _ H); auto.
Qed.

Lemma entradas_ok_set : forall ppc gc k,
  entradas_ok ppc gc -> entradas_ok ppc (dict_set gc k (dict_dflt [] ppc k)).
Proof.
  intros ppc gc k H; unfold entradas_ok in *; rewrite Forall_forall in *.
  intros kv Hin; destruct (dict_set_in _ _ _ _ Hin) as [H1|[H1 H2]]; [auto|].
  rewrite H2; unfold dict_dflt; rewrite (dict_get_id ppc (fst kv) k H1); reflexivity.
Qed.

Lemma dict_set_cabeza : forall {V} (d : list (ATC * V)) k v c w,
  exists w' r', dict_set ((c, w) :: d) k v = (c, w') :: r'.
Proof.
  intros; simpl; destruct (ATC.eqb k c); eauto.
Qed.

Lemma absorbe_inv : forall spc ppc snapshot gc gs sin c gc' gs' sin',
  entradas_ok ppc gc -> (exists v rest, gc = (c, v) :: rest) ->
  absorbe spc ppc snapshot gc gs sin = (gc', gs', sin') ->
  entradas_ok ppc gc' /\ exists v rest, gc' = (c, v) :: rest.
Proof.
  induction snapshot as [|o r IH]; intros gc gs sin c gc' gs' sin' H1 H2 H; simpl in H.
  - injection H as <- <- <-; auto.
  - destruct (set_interseca _ _).
    + eapply IH; [apply entradas_ok_set; exact H1| |exact H].
      destruct H2 as (v & rest & ->); apply dict_set_cabeza.
    + eapply IH; [exact H1|exact H2|exact H].
Qed.

Lemma ultimo_last : forall {A} (x : A) l, ultimo (x :: l) = Ok (last (x :: l) x).
Proof.
  intros A x l; unfold ultimo.
  assert (Hne : x :: l <> []) by discriminate.
  pose proof (app_removelast_last (l := x :: l) x Hne) as E.
  rewrite E at 1; rewrite rev_app_distr; reflexivity.
Qed.

Lemma bucle_grupos_inv : forall est spc ppc fuel sin res gs,
  Forall (grupo_bien_formado est ppc) res ->
  bucle_grupos est spc ppc fuel sin res = Ok gs ->
  Forall (grupo_bien_formado est ppc) gs.
Proof.
  induction fuel as [|fuel IH]; intros sin res gs Hres H; simpl in H.
  - injection H as <-; exact Hres.
  - destruct sin as [|c resto]; [injection H as <-; exact Hres|].
    destruct (dict_dflt [] spc c) as [|s ss] eqn:Esa; [eapply IH; eauto|].
    destruct (absorbe spc ppc resto [(c, dict_dflt [] ppc c)] (s :: ss) resto)
      as [[gc gs'] sin'] eqn:Eab.
    destruct (absorbe_inv spc ppc resto [(c, dict_dflt [] ppc c)] (s :: ss) resto c gc gs' sin')
      as (Hok & v & rest & Egc); [ repeat constructor | eauto | exact Eab | ].
    assert (Ec : dict_dflt [] ((c, v) :: rest) c = v)
      by (unfold dict_dflt; simpl; rewrite atc_eqb_refl; reflexivity).
    rewrite Egc, Ec in H.
    destruct v as [|pi v]; [discriminate|].
    unfold bind in H; simpl primero in H; rewrite ultimo_last in H; cbv beta iota in H.
    eapply IH; [|exact H].
    apply Forall_app; split; [exact Hres|].
    constructor; [|constructor].
    split; [reflexivity|split; [reflexivity|split; [rewrite <- Egc; exact Hok|]]].
    exists c, pi, v, rest; split; reflexivity.
Qed.

Lemma identifica_grupos_bien_formados : forall est periodos gs,
  identifica_grupos est periodos = Ok gs ->
  Forall (grupo_bien_formado est (snd (reparte periodos))) gs.
Proof.
  intros est periodos gs H; unfold identifica_grupos in H.
  destruct (reparte periodos) as [spc ppc]; simpl.
  eapply bucle_grupos_inv; [constructor|exact H].
Qed.

(** C6 (corrected): a group's [duracion] is measured on its seed controller
    alone, the first member, whose list holds all its periods in input order:
    minutes from that list's first start to its last end. *)
Theorem identifica_grupos_duracion : forall est periodos gs g,
  identifica_grupos est periodos = Ok gs -> In g gs ->
  exists c pi v rest,
    Grupo.controladores g = (c, pi :: v) :: rest /\
    periodos_de c periodos = pi :: v /\
    Grupo.duracion g =
      minutos (Periodo.hora_fin (last (pi :: v) pi)) (Periodo.hora_inicio pi).
Proof.
  intros est periodos gs g H Hin.
  pose proof (identifica_grupos_bien_formados est periodos gs H) as F.
  rewrite Forall_forall in F.
  destruct (F g Hin) as (_ & _ & Hok & c & pi & v & rest & Ec & Ed).
  exists c, pi, v, rest; split; [exact Ec|split; [|exact Ed]].
  unfold entradas_ok in Hok; rewrite Ec in Hok.
  inversion Hok as [|kv l Hkv _]; simpl in Hkv.
  rewrite <- reparte_periodos, <- Hkv; reflexivity.
Qed.

Lemma identifica_grupos_duracion_witness :
  exists gs g, identifica_grupos est0 roster_regular = Ok gs /\ In g gs /\
  exists c pi v rest,
    Grupo.controladores g = (c, pi :: v) :: rest /\
    periodos_de c roster_regular = pi :: v /\
    Grupo.duracion g =
      minutos (Periodo.hora_fin (last (pi :: v) pi)) (Periodo.hora_inicio pi).
Proof.
  eexists; eexists; split; [reflexivity|]; split; [left; reflexivity|].
  eapply (identifica_grupos_duracion est0 roster_regular); [reflexivity|left; reflexivity].
Defined.

(** C6 counterexample: B (09:00-10:00, discovered first) and A (08:00-10:00)
    share X; the group's duration is B's 60 minutes, not the 120 from the
    earliest start to the latest end. *)
Theorem identifica_grupos_duracion_del_primero :
  exists g, identifica_grupos est0 roster_escalonado = Ok [g] /\
    Grupo.duracion g = 60 /\ duracion_envolvente g = 120.
Proof. eexists; split; [reflexivity|]; split; vm_compute; reflexivity. Qed.

(** ** The shared timeline header *)

Lemma inserta_perm : forall p l, Permutation (inserta p l) (p :: l).
Proof.
  intros p l; induction l as [|q r IH]; simpl; [reflexivity|].
  destruct (Periodo.hora_inicio p <? Periodo.hora_inicio q); [reflexivity|].
  rewrite IH; apply perm_swap.
Qed.

Lemma ordena_perm : forall l, Permutation (ordena l) l.
Proof.
  intros l; unfold ordena.
  assert (G : forall l acc, Permutation (fold_left (fun acc p => inserta p acc) l acc)
                                         (l ++ acc)).
  { induction l0 as [|p r IH]; intros acc; simpl; [reflexivity|].
    rewrite IH, inserta_perm; symmetry; apply Permutation_middle. }
  rewrite G, app_nil_r; reflexivity.
Qed.

Lemma inserta_ordenada : forall p l,
  StronglySorted antes l -> StronglySorted antes (inserta p l).
Proof.
  intros p l; induction l as [|q r IH]; intros H; simpl.
  - repeat constructor.
  - apply StronglySorted_inv in H as [Hr Hq].
    destruct (Periodo.hora_inicio p <? Periodo.hora_inicio q) eqn:E.
    + apply Z.ltb_lt in E.
      constructor; [constructor; assumption|].
      constructor; [unfold antes; lia|].
      eapply Forall_impl; [|exact Hq]; unfold antes; intros x Hx; lia.
    + apply Z.ltb_ge in E.
      constructor; [apply IH; exact Hr|].
      eapply Permutation_Forall; [symmetry; apply inserta_perm|].
      constructor; [unfold antes; lia|exact Hq].
Qed.

Lemma ordena_ordenada : forall l, StronglySorted antes (ordena l).
Proof.
  intros l; unfold ordena.
  assert (G : forall l acc, StronglySorted antes acc ->
              StronglySorted antes (fold_left (fun acc p => inserta p acc) l acc)).
  { induction l0 as [|p r IH]; intros acc H; simpl; [exact H|].
    apply IH, inserta_ordenada, H. }
  apply G; constructor.
Qed.

Lemma last_cons_dflt : forall {A} (x : A) l d d', last (x :: l) d = last (x :: l) d'.
Proof.
  intros A x l; revert x; induction l as [|y l IH]; intros x d d'; [reflexivity|].
  change (last (y :: l) d = last (y :: l) d'); apply IH.
Qed.

Lemma saca_iguales_spec : forall h r cur cur' dq',
  saca_iguales h cur r = (cur', dq') ->
  exists pre, r = pre ++ dq' /\
    Forall (fun q => Periodo.hora_inicio q = h) pre /\
    cur' = last (cur :: pre) cur /\
    match dq' with q :: _ => Periodo.hora_inicio q <> h | [] => True end.
Proof.
  induction r as [|q r IH]; intros cur cur' dq' H; simpl in H.
  - injection H as <- <-; exists []; auto.
  - destruct (Periodo.hora_inicio q =? h) eqn:E.
    + apply Z.eqb_eq in E.
      destruct (IH q cur' dq' H) as (pre & -> & Hf & Hl & Hn).
      exists (q :: pre); split; [reflexivity|]; split; [constructor; assumption|].
      split; [rewrite Hl; change (last (q :: pre) q = last (q :: pre) cur); apply last_cons_dflt|exact Hn].
    + injection H as <- <-; exists []; split; [reflexivity|]; split; [constructor|].
      split; [reflexivity|apply Z.eqb_neq; exact E].
Qed.

Lemma bucle_horas_ok : forall tz dur fuel dq,
  dur <> 0 -> exists hs, bucle_horas tz dur fuel dq = Ok hs.
Proof.
  intros tz dur fuel; induction fuel as [|fuel IH]; intros dq Hd; simpl; [eauto|].
  destruct dq as [|cur r]; [eauto|].
  destruct (saca_iguales _ cur r) as [cur' dq'].
  unfold porcentaje_de; apply Z.eqb_neq in Hd; rewrite Hd; simpl.
  apply Z.eqb_neq in Hd; destruct (IH dq' Hd) as [hs E]; rewrite E; simpl; eauto.
Qed.

Lemma last_app_cons : forall {A} (pre l : list A) x d,
  last (pre ++ x :: l) d = last (x :: l) d.
Proof.
  intros A pre l x d; induction pre as [|a pre IH]; [reflexivity|].
  simpl app; rewrite <- IH; destruct pre; reflexivity.
Qed.

Lemma Forall_last : forall {A} (P : A -> Prop) l d, P d -> Forall P l -> P (last l d).
Proof.
  intros A P l; induction l as [|a r IH]; intros d Hd Hl; [exact Hd|].
  inversion Hl as [|? ? Ha Hr]; subst.
  destruct r as [|b r']; [exact Ha|].
  change (P (last (b :: r') d)); apply IH; assumption.
Qed.

Lemma StronglySorted_app_r : forall {A} (R : A -> A -> Prop) l1 l2,
  StronglySorted R (l1 ++ l2) -> StronglySorted R l2.
Proof.
  intros A R l1; induction l1 as [|a l1 IH]; intros l2 H; [exact H|].
  apply StronglySorted_inv in H as [H _]; apply IH, H.
Qed.

Lemma minutos_exacto : forall b a, 0 <= b - a < 86400 -> minutos b a = (b - a) / 60.
Proof.
  intros b a H; unfold minutos, resta; simpl; rewrite Z.mod_small; lia.
Qed.

Lemma div60_telescopa : forall a b c,
  a mod 60 = 0 -> b mod 60 = 0 -> (b - a) / 60 + (c - b) / 60 = (c - a) / 60.
Proof.
  intros a b c Ha Hb.
  rewrite (Z.div_mod a 60), (Z.div_mod b 60) by lia; rewrite Ha, Hb, !Z.add_0_r.
  replace (60 * (b / 60) - 60 * (a / 60)) with ((b / 60 - a / 60) * 60) by ring.
  replace (c - 60 * (b / 60)) with (c + (- (b / 60)) * 60) by ring.
  replace (c - 60 * (a / 60)) with (c + (- (a / 60)) * 60) by ring.
  rewrite Z.div_mul, !Z.div_add by lia; ring.
Qed.

(** The slots' durations telescope: on a sorted deque whose starts lie in one
    day and are whole minutes, they add up to the minutes from the first start
    to the last start, plus the last period's own length. *)
Lemma bucle_horas_suma : forall tz dur O fuel cur r hs,
  (List.length (cur :: r) <= fuel)%nat ->
  StronglySorted antes (cur :: r) ->
  Forall (fun p => O <= Periodo.hora_inicio p < O + 86400 /\
                   Periodo.hora_inicio p mod 60 = 0) (cur :: r) ->
  bucle_horas tz dur fuel (cur :: r) = Ok hs ->
  suma_duraciones hs =
    (Periodo.hora_inicio (last (cur :: r) cur) - Periodo.hora_inicio cur) / 60 +
    minutos (Periodo.hora_fin (last (cur :: r) cur)) (Periodo.hora_inicio (last (cur :: r) cur)).
Proof.
  intros tz dur O fuel; induction fuel as [|fuel IH]; intros cur r hs Hl Hs Hf H;
    [simpl in Hl; lia|].
  simpl in H.
  destruct (saca_iguales (Periodo.hora_inicio cur) cur r) as [cur' dq'] eqn:Esi.
  destruct (saca_iguales_spec _ _ _ _ _ Esi) as (pre & Er & Hpre & Ec & Hn).
  unfold bind in H; destruct (porcentaje_de _ dur) as [pct|e]; [|discriminate].
  destruct dq' as [|q r'].
  - assert (E0 : bucle_horas tz dur fuel [] = Ok []) by (destruct fuel; reflexivity).
    rewrite E0 in H; simpl in H; injection H as <-; cbn [suma_duraciones fold_right PeriodoData.duracion].
    rewrite app_nil_r in Er; subst r cur'.
    assert (Hh : Periodo.hora_inicio (last (cur :: pre) cur) = Periodo.hora_inicio cur).
    { apply (Forall_last (fun q => Periodo.hora_inicio q = Periodo.hora_inicio cur));
        [reflexivity|constructor; [reflexivity|assumption]]. }
    rewrite Hh, Z.sub_diag, Z.div_0_l by lia; ring.
  - destruct (bucle_horas tz dur fuel (q :: r')) as [resto|e] eqn:Eb; [|discriminate].
    injection H as <-; cbn [suma_duraciones fold_right PeriodoData.duracion].
    change (fold_right (fun e acc => PeriodoData.duracion e + acc) 0 resto)
      with (suma_duraciones resto).
    subst r.
    assert (Hs' : StronglySorted antes (q :: r')).
    { apply StronglySorted_inv in Hs as [Hs _]; eapply StronglySorted_app_r; exact Hs. }
    assert (Hf' : Forall (fun p => O <= Periodo.hora_inicio p < O + 86400 /\
                   Periodo.hora_inicio p mod 60 = 0) (q :: r')).
    { inversion Hf as [|? ? _ Hf2]; apply Forall_app in Hf2 as [_ Hf2]; exact Hf2. }
    rewrite (IH q r' resto) by (simpl in *; rewrite ?length_app in Hl; simpl in Hl; lia || assumption).
    assert (El : last (cur :: pre ++ q :: r') cur = last (q :: r') q).
    { change (cur :: pre ++ q :: r') with ((cur :: pre) ++ q :: r').
      rewrite last_app_cons; apply last_cons_dflt. }
    rewrite El.
    inversion Hf as [|? ? [Hc1 Hc2] _]; inversion Hf' as [|? ? [Hq1 Hq2] _].
    assert (Hcq : antes cur q).
    { apply StronglySorted_inv in Hs as [_ Hs]; rewrite Forall_forall in Hs; apply Hs.
      apply in_or_app; right; left; reflexivity. }
    unfold antes in Hcq.
    rewrite minutos_exacto by lia.
    rewrite Z.add_assoc, div60_telescopa by assumption; reflexivity.
Qed.

Lemma cadena_cota : forall l b c, cadena b c l -> b <= c.
Proof.
  induction l as [|z l IH]; intros b c Hc; [destruct Hc|].
  destruct l; simpl in Hc; [lia|]. destruct Hc as (? & ? & Hc); apply IH in Hc; lia.
Qed.

Lemma cadena_cotas : forall l a c p, cadena a c l -> In p l ->
  a <= Periodo.hora_inicio p < Periodo.hora_fin p /\ Periodo.hora_fin p <= c.
Proof.
  induction l as [|x r IH]; intros a c p H Hin; [destruct Hin|].
  destruct r as [|y r'].
  - destruct Hin as [<-|[]]; simpl in H; lia.
  - destruct H as (H1 & H2 & H3); destruct Hin as [<-|Hin]; [split; [lia|]|].
    + apply cadena_cota in H3; lia.
    + destruct (IH _ _ _ H3 Hin); lia.
Qed.

Lemma cadena_siguiente : forall l a c p, cadena a c l -> In p l -> Periodo.hora_fin p < c ->
  exists q, In q l /\ Periodo.hora_inicio q = Periodo.hora_fin p.
Proof.
  induction l as [|x r IH]; intros a c p H Hin Hlt; [destruct Hin|].
  destruct r as [|y r'].
  - destruct Hin as [<-|[]]; simpl in H; lia.
  - destruct H as (H1 & H2 & H3); destruct Hin as [<-|Hin].
    + exists y; split; [right; left; reflexivity|].
      destruct r'; simpl in H3; tauto.
    + destruct (IH _ _ _ H3 Hin Hlt) as (q & Hq & Eq); exists q; split; [right|]; assumption.
Qed.

Lemma cadena_inicio : forall p l a c, cadena a c (p :: l) -> Periodo.hora_inicio p = a.
Proof. intros p [|q l] a c H; simpl in H; tauto. Qed.

Lemma cadena_fin : forall l a c d, cadena a c l -> Periodo.hora_fin (last l d) = c.
Proof.
  induction l as [|x r IH]; intros a c d H; [destruct H|].
  destruct r as [|y r']; simpl in H; [tauto|].
  destruct H as (_ & _ & H); change (Periodo.hora_fin (last (y :: r') d) = c); eapply IH; exact H.
Qed.

Lemma periodos_de_id : forall a b l, ATC.id a = ATC.id b -> periodos_de a l = periodos_de b l.
Proof.
  intros a b l H; unfold periodos_de, ATC.eqb; rewrite H; reflexivity.
Qed.

Lemma periodos_de_in : forall c l p, In p (periodos_de c l) ->
  In p l /\ periodos_de (Periodo.controlador p) l = periodos_de c l.
Proof.
  intros c l p H; unfold periodos_de in H; apply filter_In in H as [H1 H2].
  split; [exact H1|]; apply periodos_de_id; apply Nat.eqb_eq; exact H2.
Qed.

Lemma ultimo_in : forall (l : list Periodo.t) d, l <> [] -> In (last l d) l.
Proof.
  intros l d Hne; pose proof (app_removelast_last (l := l) d Hne) as E.
  rewrite E at 2; apply in_or_app; right; left; reflexivity.
Qed.

Lemma ordenada_ultimo_max : forall l d x, StronglySorted antes l -> In x l ->
  Periodo.hora_inicio x <= Periodo.hora_inicio (last l d).
Proof.
  induction l as [|a r IH]; intros d x H Hin; [destruct Hin|].
  apply StronglySorted_inv in H as [Hr Ha].
  destruct r as [|b r'].
  - destruct Hin as [<-|[]]; simpl; lia.
  - change (last (a :: b :: r') d) with (last (b :: r') d).
    destruct Hin as [<-|Hin]; [|apply IH; assumption].
    rewrite Forall_forall in Ha; apply (Ha _ (ultimo_in (b :: r') d ltac:(discriminate))).
Qed.


(** Every pooled period of a group lies in a member's list, which is that
    member's whole list of periods. *)
Lemma pool_de_grupo : forall periodos gc p,
  entradas_ok (snd (reparte periodos)) gc -> In p (List.concat (map snd gc)) ->
  exists l, In l (map snd gc) /\ In p l /\ In p periodos /\
            l = periodos_de (Periodo.controlador p) periodos.
Proof.
  intros periodos gc p Hok Hp.
  apply in_concat in Hp as (l & Hl & Hpl); exists l; split; [exact Hl|split; [exact Hpl|]].
  apply in_map_iff in Hl as (kv & <- & Hkv).
  unfold entradas_ok in Hok; rewrite Forall_forall in Hok.
  rewrite (Hok kv Hkv), reparte_periodos in Hpl |- *.
  destruct (periodos_de_in _ _ _ Hpl) as [H1 H2]; split; [exact H1|symmetry; exact H2].
Qed.

(** C2 (corrected): when every controller's periods form one contiguous chain
    from a common opening instant [O] to a common closing instant [C], less
    than a day apart, and all instants are whole minutes, the header of every
    discovered group is built without error and its slot durations add up to
    the group's [duracion]. *)
Theorem genera_horas_de_inicio_conserva : forall est periodos gs g O C tz,
  identifica_grupos est periodos = Ok gs -> In g gs ->
  C - O < 86400 ->
  (forall p, In p periodos ->
     Periodo.hora_inicio p mod 60 = 0 /\ Periodo.hora_fin p mod 60 = 0) ->
  (forall p, In p periodos -> cadena O C (periodos_de (Periodo.controlador p) periodos)) ->
  exists hs, genera_horas_de_inicio (Grupo.duracion g) (Grupo.controladores g) tz = Ok hs /\
             suma_duraciones hs = Grupo.duracion g.
Proof.
  intros est periodos gs g O C tz H Hin HOC Hm Hcad.
  pose proof (identifica_grupos_bien_formados est periodos gs H) as F.
  rewrite Forall_forall in F.
  destruct (F g Hin) as (_ & _ & Hok & c & pi & v & rest & Ec & Ed).
  set (pool := List.concat (map snd (Grupo.controladores g))).
  (* the pooled periods *)
  assert (Hp : forall p, In p pool ->
     O <= Periodo.hora_inicio p < Periodo.hora_fin p /\ Periodo.hora_fin p <= C /\
     Periodo.hora_inicio p mod 60 = 0 /\
     (Periodo.hora_fin p < C -> exists q, In q pool /\
                                 Periodo.hora_inicio q = Periodo.hora_fin p)).
  { intros p Hpp.
    destruct (pool_de_grupo _ _ _ Hok Hpp) as (l & Hl & Hpl & Hpin & El).
    pose proof (Hcad p Hpin) as Hc; rewrite <- El in Hc.
    destruct (cadena_cotas _ _ _ _ Hc Hpl) as [Hb1 Hb2].
    split; [exact Hb1|split; [exact Hb2|split; [apply Hm, Hpin|]]].
    intros Hlt; destruct (cadena_siguiente _ _ _ _ Hc Hpl Hlt) as (q & Hq & Eq).
    exists q; split; [|exact Eq].
    apply in_concat; exists l; split; assumption. }
  (* the seed's chain fixes the duration *)
  assert (Hseed : periodos_de c periodos = pi :: v).
  { unfold entradas_ok in Hok; rewrite Ec in Hok.
    inversion Hok as [|kv l Hkv _]; simpl in Hkv.
    rewrite <- reparte_periodos, <- Hkv; reflexivity. }
  assert (Hpi : In pi periodos /\ periodos_de (Periodo.controlador pi) periodos = pi :: v).
  { rewrite <- Hseed; apply periodos_de_in; rewrite Hseed; left; reflexivity. }
  destruct Hpi as [Hpi Epi].
  pose proof (Hcad pi Hpi) as Hc; rewrite Epi in Hc.
  pose proof (cadena_inicio _ _ _ _ Hc) as HO.
  pose proof (cadena_fin _ _ _ pi Hc) as HC.
  assert (HlastC : In (last (pi :: v) pi) periodos).
  { apply (periodos_de_in c); rewrite Hseed; apply ultimo_in; discriminate. }
  assert (HOm : O mod 60 = 0) by (rewrite <- HO; apply Hm, Hpi).
  assert (HCm : C mod 60 = 0) by (rewrite <- HC; apply Hm, HlastC).
  assert (HOC' : O < C).
  { destruct (cadena_cotas _ _ _ pi Hc (or_introl eq_refl)); lia. }
  rewrite HC, HO, minutos_exacto in Ed by lia.
  assert (Hd : Grupo.duracion g <> 0).
  { assert (H60 : 60 <= C - O).
    { pose proof (Z.div_mod C 60 ltac:(lia)) as E1; pose proof (Z.div_mod O 60 ltac:(lia)) as E2.
      rewrite HCm in E1; rewrite HOm in E2.
      set (qc := C / 60) in E1; set (qo := O / 60) in E2; lia. }
    rewrite Ed; assert (0 < (C - O) / 60) by (apply Z.div_str_pos; lia); lia. }
  (* the sorted deque *)
  assert (Hpool_pi : In pi pool).
  { unfold pool; rewrite Ec; simpl; left; reflexivity. }
  unfold genera_horas_de_inicio; fold pool.
  pose proof (ordena_perm pool) as Hperm.
  pose proof (ordena_ordenada pool) as Hsort.
  destruct (bucle_horas_ok tz (Grupo.duracion g) (List.length (ordena pool)) (ordena pool) Hd)
    as [hs Ehs].
  exists hs; split; [exact Ehs|].
  assert (Hdq : forall x, In x (ordena pool) -> In x pool)
    by (intros x Hx; eapply Permutation_in; [exact Hperm|exact Hx]).
  assert (Hpi' : In pi (ordena pool))
    by (eapply Permutation_in; [symmetry; exact Hperm|exact Hpool_pi]).
  destruct (ordena pool) as [|cur r] eqn:Edq; [destruct Hpi'|].
  rewrite (bucle_horas_suma tz (Grupo.duracion g) O _ cur r hs (le_n _) Hsort).
  2:{ rewrite Forall_forall; intros x Hx; destruct (Hp x (Hdq x Hx)) as (? & ? & ? & _); lia. }
  2:{ exact Ehs. }
  set (L := last (cur :: r) cur).
  assert (HL : In L pool) by (apply Hdq, ultimo_in; discriminate).
  assert (Hcur : Periodo.hora_inicio cur = O).
  { destruct (Hp cur (Hdq cur (or_introl eq_refl))) as ((? & _) & _).
    destruct Hpi' as [<-|Hpr]; [exact HO|].
    apply StronglySorted_inv in Hsort as [_ Hs]; rewrite Forall_forall in Hs.
    specialize (Hs pi Hpr); unfold antes in Hs; lia. }
  assert (HfL : Periodo.hora_fin L = C).
  { destruct (Hp L HL) as (Hb & Hb' & _ & Hnext).
    destruct (Z.eq_dec (Periodo.hora_fin L) C) as [E|Hne]; [exact E|exfalso].
    destruct (Hnext ltac:(lia)) as (q & Hq & Eq).
    assert (Hq' : In q (cur :: r))
      by (eapply Permutation_in; [symmetry; exact Hperm|exact Hq]).
    pose proof (ordenada_ultimo_max _ cur q Hsort Hq') as Hmax; fold L in Hmax; lia. }
  destruct (Hp L HL) as (Hb & _ & HLm & _).
  rewrite Hcur, HfL, minutos_exacto by lia.
  rewrite div60_telescopa by assumption; symmetry; exact Ed.
Qed.

Lemma genera_horas_de_inicio_conserva_witness :
  exists gs g, identifica_grupos est0 roster_regular = Ok gs /\ In g gs /\
  exists hs, genera_horas_de_inicio (Grupo.duracion g) (Grupo.controladores g) utc = Ok hs /\
             suma_duraciones hs = Grupo.duracion g.
Proof.
  eexists; eexists; split; [reflexivity|]; split; [left; reflexivity|].
  eapply (genera_horas_de_inicio_conserva est0 roster_regular _ _ (hm 8 0) (hm 10 0) utc).
  - reflexivity.
  - left; reflexivity.
  - unfold hm; lia.
  - intros p Hp; simpl in Hp.
    repeat (destruct Hp as [<-|Hp]; [split; vm_compute; reflexivity|]); destruct Hp.
  - intros p Hp; simpl in Hp.
    repeat (destruct Hp as [<-|Hp]; [vm_compute; repeat split; reflexivity|]); destruct Hp.
Defined.

(** C2 counterexample: in [roster_escalonado] both lists are contiguous and
    end at the common closing instant, but B starts an hour later; the group's
    duration is 60 minutes while its header covers 08:00-09:00 and 09:00-10:00,
    120 minutes. *)
Theorem genera_horas_de_inicio_escalonado :
  exists g hs, identifica_grupos est0 roster_escalonado = Ok [g] /\
    genera_horas_de_inicio (Grupo.duracion g) (Grupo.controladores g) utc = Ok hs /\
    Grupo.duracion g = 60 /\ suma_duraciones hs = 120.
Proof.
  eexists; eexists; split; [reflexivity|]; split; [reflexivity|].
  split; vm_compute; reflexivity.
Qed.

(** ** Duration arithmetic *)

Lemma bucle_horas_duraciones : forall tz dur fuel dq hs,
  bucle_horas tz dur fuel dq = Ok hs ->
  Forall (fun e => exists p q, In p dq /\ In q dq /\
            (PeriodoData.duracion e = minutos (Periodo.hora_inicio q) (Periodo.hora_inicio p) \/
             PeriodoData.duracion e = minutos (Periodo.hora_fin q) (Periodo.hora_inicio p))) hs.
Proof.
  intros tz dur fuel; induction fuel as [|fuel IH]; intros dq hs H; simpl in H.
  - injection H as <-; constructor.
  - destruct dq as [|cur r]; [injection H as <-; constructor|].
    destruct (saca_iguales (Periodo.hora_inicio cur) cur r) as [cur' dq'] eqn:Esi.
    destruct (saca_iguales_spec _ _ _ _ _ Esi) as (pre & Er & _ & Ec & _).
    unfold bind in H; destruct (porcentaje_de _ dur) as [pct|e]; [|discriminate].
    destruct (bucle_horas tz dur fuel dq') as [resto|e] eqn:Eb; [|discriminate].
    injection H as <-; subst r.
    assert (Hsub : forall x, In x dq' -> In x (cur :: pre ++ dq'))
      by (intros x Hx; right; apply in_or_app; right; exact Hx).
    constructor.
    + cbn [PeriodoData.duracion]; exists cur.
      destruct dq' as [|q r'].
      * exists cur'; split; [left; reflexivity|split; [|right; reflexivity]].
        rewrite Ec, app_nil_r; apply ultimo_in; discriminate.
      * exists q; split; [left; reflexivity|split; [apply Hsub; left; reflexivity|left; reflexivity]].
    + eapply Forall_impl; [|exact (IH dq' resto Eb)].
      intros e (p & q & Hp & Hq & Hd); exists p, q; auto.
Qed.

Lemma genera_horas_de_inicio_duraciones : forall dur ctrls tz hs,
  genera_horas_de_inicio dur ctrls tz = Ok hs ->
  Forall (fun e => exists p q,
            In p (List.concat (map snd ctrls)) /\ In q (List.concat (map snd ctrls)) /\
            (PeriodoData.duracion e = minutos (Periodo.hora_inicio q) (Periodo.hora_inicio p) \/
             PeriodoData.duracion e = minutos (Periodo.hora_fin q) (Periodo.hora_inicio p))) hs.
Proof.
  intros dur ctrls tz hs H; unfold genera_horas_de_inicio in H.
  pose proof (ordena_perm (List.concat (map snd ctrls))) as Hperm.
  eapply Forall_impl; [|exact (bucle_horas_duraciones _ _ _ _ _ H)].
  intros e (p & q & Hp & Hq & Hd); exists p, q.
  split; [eapply Permutation_in; [exact Hperm|exact Hp]|].
  split; [eapply Permutation_in; [exact Hperm|exact Hq]|exact Hd].
Qed.

Lemma periodo_data_duracion : forall grupo tz now cm p d cm',
  periodo_data grupo tz now cm p = Ok (d, cm') ->
  PeriodoData.duracion d = minutos (Periodo.hora_fin p) (Periodo.hora_inicio p).
Proof.
  intros grupo tz now cm p d cm' H; unfold periodo_data, bind in H.
  destruct (genera_actividad p) as [a|e]; [|discriminate].
  destruct (genera_color p cm) as [[col cm1]|e]; [|discriminate].
  destruct (porcentaje_de _ _) as [pct|e]; [|discriminate].
  injection H as <- _; reflexivity.
Qed.

(** The header slots, tied to their own instants: the [i]-th slot starts at
    [ts[i]], and lasts until [ts[i+1]], or, for the last slot, until the end of
    a period starting at [ts[i]]. *)
Lemma bucle_horas_tramos : forall tz dur fuel dq hs,
  (List.length dq <= fuel)%nat -> bucle_horas tz dur fuel dq = Ok hs ->
  exists ts, List.length ts = List.length hs /\
    map PeriodoData.hora_inicio hs = map (hhmm tz) ts /\
    match dq with [] => ts = [] | p :: _ => nth_error ts 0 = Some (Periodo.hora_inicio p) end /\
    (forall t, In t ts -> exists p, In p dq /\ Periodo.hora_inicio p = t) /\
    forall i e, nth_error hs i = Some e -> exists t, nth_error ts i = Some t /\
      match nth_error ts (S i) with
      | Some t' => PeriodoData.duracion e = minutos t' t
      | None => exists p, In p dq /\ Periodo.hora_inicio p = t /\
                          PeriodoData.duracion e = minutos (Periodo.hora_fin p) t
      end.
Proof.
  intros tz dur fuel; induction fuel as [|fuel IH]; intros dq hs Hl H.
  - destruct dq; [|simpl in Hl; lia].
    simpl in H; injection H as <-; exists [].
    split; [reflexivity|split; [reflexivity|split; [reflexivity|split]]].
    + intros t [].
    + intros [|i] e He; discriminate.
  - simpl in H; destruct dq as [|cur r].
    + injection H as <-; exists [].
      split; [reflexivity|split; [reflexivity|split; [reflexivity|split]]].
      * intros t [].
      * intros [|i] e He; discriminate.
    + destruct (saca_iguales (Periodo.hora_inicio cur) cur r) as [cur' dq'] eqn:Esi.
      destruct (saca_iguales_spec _ _ _ _ _ Esi) as (pre & Er & Hpre & Ec & _).
      unfold bind in H; destruct (porcentaje_de _ dur) as [pct|e]; [|discriminate].
      destruct (bucle_horas tz dur fuel dq') as [resto|e] eqn:Eb; [|discriminate].
      injection H as <-; subst r.
      assert (Hl' : (List.length dq' <= fuel)%nat)
        by (simpl in Hl; rewrite length_app in Hl; lia).
      destruct (IH dq' resto Hl' Eb) as (ts & Hlen & Hmap & Hhd & Hin & Hdur).
      assert (Hsub : forall x, In x dq' -> In x (cur :: pre ++ dq'))
        by (intros x Hx; right; apply in_or_app; right; exact Hx).
      exists (Periodo.hora_inicio cur :: ts).
      split; [simpl; f_equal; exact Hlen|].
      split; [simpl; f_equal; exact Hmap|].
      split; [reflexivity|split].
      * intros t [<-|Ht]; [exists cur; split; [left|]; reflexivity|].
        destruct (Hin t Ht) as (p & Hp & Ep); exists p; split; [apply Hsub, Hp|exact Ep].
      * intros [|i] e He.
        -- injection He as <-; exists (Periodo.hora_inicio cur); split; [reflexivity|].
           cbn [nth_error PeriodoData.duracion].
           destruct dq' as [|q r'].
           ++ subst ts; exists cur'; split; [|split; [|reflexivity]].
              ** rewrite Ec, app_nil_r; apply ultimo_in; discriminate.
              ** rewrite Ec.
                 apply (Forall_last (fun q => Periodo.hora_inicio q = Periodo.hora_inicio cur));
                   [reflexivity|constructor; [reflexivity|assumption]].
           ++ destruct ts as [|t0 ts0]; simpl in Hhd |- *; [discriminate|injection Hhd as ->; reflexivity].
        -- destruct (Hdur i e He) as (t & Ht & Hm); exists t; split; [exact Ht|].
           change (nth_error (Periodo.hora_inicio cur :: ts) (S (S i))) with (nth_error ts (S i)).
           destruct (nth_error ts (S i)) as [t'|]; [exact Hm|].
           destruct Hm as (p & Hp & Ep & Ed); exists p; split; [apply Hsub, Hp|split; assumption].
Qed.

(** C10: every duration is [(fin - inicio).seconds // 60]: the difference
    reduced modulo one day, then floored to minutes, so always in [0, 1440)
    and blind to whole days; the group durations, the rendered periods'
    durations and the header slots' durations are all of that form, each of its
    own instants: a group's duration of its seed member's first start and last
    end; a rendered period's of the period's start and end; the [i]-th header
    slot's of its start [ts[i]] and the next slot's start [ts[i+1]], or, for
    the last slot, of the end of a period starting at [ts[i]].  So an end
    before its start, or a span of a day or more, yields the remainder. *)
Theorem duraciones_modulo_dia :
  (forall fin inicio,
     minutos fin inicio = ((fin - inicio) mod 86400) / 60 /\
     0 <= minutos fin inicio < 1440 /\
     forall k, minutos (fin + 86400 * k) inicio = minutos fin inicio) /\
  (forall est periodos gs g, identifica_grupos est periodos = Ok gs -> In g gs ->
     exists c pi v rest, Grupo.controladores g = (c, pi :: v) :: rest /\
       Grupo.duracion g =
         minutos (Periodo.hora_fin (last (pi :: v) pi)) (Periodo.hora_inicio pi)) /\
  (forall grupo tz now cm p d cm', periodo_data grupo tz now cm p = Ok (d, cm') ->
     PeriodoData.duracion d = minutos (Periodo.hora_fin p) (Periodo.hora_inicio p)) /\
  (forall dur ctrls tz hs, genera_horas_de_inicio dur ctrls tz = Ok hs ->
     exists ts, List.length ts = List.length hs /\
       map PeriodoData.hora_inicio hs = map (hhmm tz) ts /\
       (forall t, In t ts ->
          exists p, In p (List.concat (map snd ctrls)) /\ Periodo.hora_inicio p = t) /\
       forall i e, nth_error hs i = Some e -> exists t, nth_error ts i = Some t /\
         match nth_error ts (S i) with
         | Some t' => PeriodoData.duracion e = minutos t' t
         | None => exists p, In p (List.concat (map snd ctrls)) /\
                             Periodo.hora_inicio p = t /\
                             PeriodoData.duracion e = minutos (Periodo.hora_fin p) t
         end) /\
  minutos (hm 8 0) (hm 9 0) = 1380 /\
  minutos (hm 8 0 + 86400) (hm 8 0) = 0 /\
  minutos (hm 9 0 + 86400) (hm 8 0) = 60.
Proof.
  split; [|split; [|split; [|split]]].
  - intros fin inicio; unfold minutos, resta; cbn [Timedelta.seconds].
    split; [reflexivity|split].
    + pose proof (Z.mod_pos_bound (fin - inicio) 86400 ltac:(lia)).
      split; [apply Z.div_pos; lia|apply Z.div_lt_upper_bound; lia].
    + intros k; f_equal.
      replace (fin + 86400 * k - inicio) with (fin - inicio + k * 86400) by ring.
      apply Z.mod_add; lia.
  - intros est periodos gs g H Hin.
    pose proof (identifica_grupos_bien_formados est periodos gs H) as F.
    rewrite Forall_forall in F.
    destruct (F g Hin) as (_ & _ & _ & c & pi & v & rest & Ec & Ed).
    exists c, pi, v, rest; split; assumption.
  - exact periodo_data_duracion.
  - intros dur ctrls tz hs H; unfold genera_horas_de_inicio in H.
    pose proof (ordena_perm (List.concat (map snd ctrls))) as Hperm.
    destruct (bucle_horas_tramos _ _ _ _ _ (le_n _) H) as (ts & Hlen & Hmap & _ & Hin & Hdur).
    exists ts; split; [exact Hlen|split; [exact Hmap|split]].
    + intros t Ht; destruct (Hin t Ht) as (p & Hp & Ep); exists p; split; [|exact Ep].
      eapply Permutation_in; [exact Hperm|exact Hp].
    + intros i e He; destruct (Hdur i e He) as (t & Ht & Hm); exists t; split; [exact Ht|].
      destruct (nth_error ts (S i)); [exact Hm|].
      destruct Hm as (p & Hp & Ep & Ed); exists p; split; [|split; assumption].
      eapply Permutation_in; [exact Hperm|exact Hp].
  - repeat split; vm_compute; reflexivity.
Qed.

(** * Further properties of the code *)

(** ** Group discovery: a partition of the working controllers *)

Lemma existsb_nat_in : forall n l, existsb (Nat.eqb n) l = true <-> In n l.
Proof.
  intros n l; rewrite existsb_exists; split.
  - intros (x & Hx & E); apply Nat.eqb_eq in E; subst; exact Hx.
  - intros H; exists n; split; [exact H|apply Nat.eqb_refl].
Qed.

Lemma dict_set_ids : forall {V} (d : list (ATC * V)) k v,
  ids_de (dict_set d k v) =
    if existsb (Nat.eqb (ATC.id k)) (ids_de d) then ids_de d else ids_de d ++ [ATC.id k].
Proof.
  intros V d k v; induction d as [|[k' v'] r IH]; [reflexivity|].
  unfold ids_de in *; simpl; unfold ATC.eqb.
  destruct (Nat.eqb (ATC.id k) (ATC.id k')) eqn:E; simpl; [reflexivity|].
  rewrite IH; destruct (existsb _ _); reflexivity.
Qed.

Lemma dict_set_ids_in : forall {V} (d : list (ATC * V)) k v m,
  In m (ids_de (dict_set d k v)) <-> In m (ids_de d) \/ m = ATC.id k.
Proof.
  intros V d k v m; rewrite dict_set_ids.
  destruct (existsb _ _) eqn:E.
  - apply existsb_nat_in in E; split; [auto|intros [H| ->]; auto].
  - rewrite in_app_iff; simpl; split; intros [H|H]; auto; destruct H as [H|[]]; auto.
Qed.

Lemma NoDup_snoc_nat : forall (l : list nat) x, NoDup l -> ~ In x l -> NoDup (l ++ [x]).
Proof.
  intros l x H Hx; apply NoDup_app; [exact H|repeat constructor; auto|].
  intros a Ha [<-|[]]; contradiction.
Qed.

Lemma dict_set_ids_nodup : forall {V} (d : list (ATC * V)) k v,
  NoDup (ids_de d) -> NoDup (ids_de (dict_set d k v)).
Proof.
  intros V d k v H; rewrite dict_set_ids.
  destruct (existsb _ _) eqn:E; [exact H|].
  apply NoDup_snoc_nat; [exact H|].
  intros Hin; apply existsb_nat_in in Hin; congruence.
Qed.

Lemma set_add_ne : forall s xs, set_add s xs <> [].
Proof.
  intros s xs; unfold set_add, set_mem; destruct (existsb _ xs) eqn:E.
  - destruct xs; [discriminate|congruence].
  - destruct xs; discriminate.
Qed.

Lemma reparte_paso_spc : forall pre spc ppc p,
  spc_ok pre spc -> spc_ok (pre ++ [p]) (fst (reparte_paso (spc, ppc) p)).
Proof.
  intros pre spc ppc p (Hnd & Hne & Hin); simpl.
  destruct (Periodo.sector p) as [s|] eqn:Es.
  - split; [apply dict_set_ids_nodup, Hnd|split].
    + rewrite Forall_forall in *; intros kv Hkv.
      destruct (dict_set_in _ _ _ _ Hkv) as [H|[_ ->]]; [apply Hne, H|apply set_add_ne].
    + intros n; rewrite dict_set_ids_in, Hin; split.
      * intros [(q & Hq & E1 & E2)| ->].
        -- exists q; rewrite in_app_iff; auto.
        -- exists p; rewrite in_app_iff, Es; simpl; split; [auto|split; [reflexivity|discriminate]].
      * intros (q & Hq & E1 & E2); apply in_app_iff in Hq as [Hq|[<-|[]]]; [left; eauto|right; auto].
  - split; [exact Hnd|split; [exact Hne|]].
    intros n; rewrite Hin; split.
    + intros (q & Hq & E1 & E2); exists q; rewrite in_app_iff; auto.
    + intros (q & Hq & E1 & E2); apply in_app_iff in Hq as [Hq|[<-|[]]]; [eauto|congruence].
Qed.

Lemma reparte_spc : forall periodos, spc_ok periodos (fst (reparte periodos)).
Proof.
  intros periodos; unfold reparte.
  assert (G : forall l pre acc, spc_ok pre (fst acc) ->
              spc_ok (pre ++ l) (fst (fold_left reparte_paso l acc))).
  { induction l as [|p l IH]; intros pre [spc ppc] H; simpl; [rewrite app_nil_r; exact H|].
    replace (pre ++ p :: l) with ((pre ++ [p]) ++ l) by (rewrite <- app_assoc; reflexivity).
    apply IH, reparte_paso_spc, H. }
  apply (G periodos []); split; [constructor|split; [constructor|]].
  intros n; simpl; split; [intros []|intros (q & [] & _)].
Qed.

Lemma remove_first_app : forall kept o r,
  ~ In (ATC.id o) (map ATC.id kept) -> remove_first o (kept ++ o :: r) = kept ++ r.
Proof.
  induction kept as [|a kept IH]; intros o r H; simpl.
  - rewrite atc_eqb_refl; reflexivity.
  - unfold ATC.eqb; destruct (Nat.eqb (ATC.id o) (ATC.id a)) eqn:E.
    + apply Nat.eqb_eq in E; exfalso; apply H; left; auto.
    + rewrite IH; [reflexivity|]; intros Hin; apply H; right; exact Hin.
Qed.

(** One scan of the snapshot moves the absorbed controllers from the worklist
    into the group and loses none. *)
Lemma absorbe_reparto : forall spc ppc snapshot kept gc gs gc' gs' sin',
  NoDup (ids_de gc ++ map ATC.id (kept ++ snapshot)) ->
  absorbe spc ppc snapshot gc gs (kept ++ snapshot) = (gc', gs', sin') ->
  Permutation (ids_de gc' ++ map ATC.id sin') (ids_de gc ++ map ATC.id (kept ++ snapshot)).
Proof.
  intros spc ppc; induction snapshot as [|o r IH]; intros kept gc gs gc' gs' sin' Hnd H;
    simpl in H.
  - injection H as <- <- <-; reflexivity.
  - rewrite map_app in Hnd; simpl in Hnd.
    assert (Hperm : Permutation (ids_de gc ++ map ATC.id kept ++ ATC.id o :: map ATC.id r)
                                (ids_de gc ++ [ATC.id o] ++ map ATC.id kept ++ map ATC.id r)).
    { apply Permutation_app_head; simpl; symmetry; apply Permutation_middle. }
    pose proof (Permutation_NoDup Hperm Hnd) as Hnd'.
    pose proof (NoDup_remove_2 (ids_de gc) (map ATC.id kept ++ map ATC.id r) (ATC.id o) Hnd')
      as Hno; rewrite in_app_iff, in_app_iff in Hno.
    destruct (set_interseca _ _).
    + rewrite remove_first_app in H by tauto.
      assert (Eids : ids_de (dict_set gc o (dict_dflt [] ppc o)) = ids_de gc ++ [ATC.id o]).
      { rewrite dict_set_ids; destruct (existsb _ _) eqn:E; [|reflexivity].
        apply existsb_nat_in in E; tauto. }
      apply IH in H; [|rewrite Eids, map_app, <- app_assoc; exact Hnd'].
      etransitivity; [exact H|].
      rewrite Eids, !map_app, <- app_assoc; simpl; symmetry; exact Hperm.
    + replace (kept ++ o :: r) with ((kept ++ [o]) ++ r) in H by (rewrite <- app_assoc; reflexivity).
      apply IH in H.
      * rewrite <- app_assoc in H; exact H.
      * rewrite <- app_assoc, map_app; exact Hnd.
Qed.

Lemma ids_grupos_snoc : forall res g,
  ids_grupos (res ++ [g]) = ids_grupos res ++ ids_de (Grupo.controladores g).
Proof.
  intros res g; unfold ids_grupos; rewrite map_app, concat_app; simpl; rewrite app_nil_r;
    reflexivity.
Qed.

Lemma bucle_grupos_particion : forall est spc ppc fuel sin res K,
  (List.length sin <= fuel)%nat ->
  Permutation (ids_grupos res ++ map ATC.id sin) K -> NoDup K ->
  (forall c, In (ATC.id c) K -> dict_dflt [] spc c <> [] /\ dict_dflt [] ppc c <> []) ->
  exists gs, bucle_grupos est spc ppc fuel sin res = Ok gs /\ Permutation (ids_grupos gs) K.
Proof.
  intros est spc ppc; induction fuel as [|fuel IH]; intros sin res K Hl Hp Hnd Hk.
  - destruct sin; [|simpl in Hl; lia].
    exists res; split; [reflexivity|]; simpl in Hp; rewrite app_nil_r in Hp; exact Hp.
  - destruct sin as [|c resto].
    + exists res; split; [reflexivity|]; simpl in Hp; rewrite app_nil_r in Hp; exact Hp.
    + assert (Hc : In (ATC.id c) K)
        by (eapply Permutation_in; [exact Hp|apply in_or_app; right; left; reflexivity]).
      destruct (Hk c Hc) as [Hs Hq].
      simpl; destruct (dict_dflt [] spc c) as [|s ss] eqn:Esa; [congruence|].
      destruct (absorbe spc ppc resto [(c, dict_dflt [] ppc c)] (s :: ss) resto)
        as [[gc gs'] sin'] eqn:Eab.
      destruct (absorbe_inv spc ppc resto [(c, dict_dflt [] ppc c)] (s :: ss) resto c gc gs' sin')
        as (Hok & v & rest & Egc); [repeat constructor | eauto | exact Eab | ].
      assert (Ev : v = dict_dflt [] ppc c).
      { unfold entradas_ok in Hok; rewrite Egc in Hok; inversion Hok as [|? ? Hkv _]; exact Hkv. }
      assert (Ec : dict_dflt [] ((c, v) :: rest) c = v)
        by (unfold dict_dflt; simpl; rewrite atc_eqb_refl; reflexivity).
      assert (Hnd0 : NoDup (ids_de [(c, dict_dflt [] ppc c)] ++ map ATC.id ([] ++ resto))).
      { apply (Permutation_NoDup (Permutation_sym Hp)) in Hnd; apply NoDup_app_remove_l in Hnd; exact Hnd. }
      pose proof (absorbe_reparto spc ppc resto [] _ _ _ _ _ Hnd0 Eab) as Hab.
      rewrite Egc in Hab |- *; rewrite Ec.
      destruct v as [|pi v']; [congruence|].
      unfold bind; simpl primero; rewrite ultimo_last; cbv beta iota.
      apply IH.
      * apply Permutation_length in Hab; unfold ids_de in Hab; simpl in Hab, Hl.
        rewrite !length_app, !length_map in Hab; lia.
      * rewrite ids_grupos_snoc; cbn [Grupo.controladores].
        rewrite <- app_assoc; etransitivity; [apply Permutation_app_head; exact Hab|exact Hp].
      * exact Hnd.
      * exact Hk.
Qed.

Lemma dict_get_ids : forall {V} (d : list (ATC * V)) c,
  In (ATC.id c) (ids_de d) -> exists k v, In (k, v) d /\ dict_get d c = Some v.
Proof.
  intros V d c; induction d as [|[k v] r IH]; intros H; [destruct H|].
  simpl; unfold ATC.eqb; destruct (Nat.eqb (ATC.id c) (ATC.id k)) eqn:E.
  - exists k, v; auto.
  - destruct H as [H|H]; [simpl in H; apply Nat.eqb_neq in E; congruence|].
    destruct (IH H) as (k' & v' & H1 & H2); exists k', v'; auto.
Qed.

Lemma identifica_grupos_reparto : forall est periodos,
  exists gs, identifica_grupos est periodos = Ok gs /\ NoDup (ids_grupos gs) /\
  forall n, In n (ids_grupos gs) <->
            exists p, In p periodos /\ ATC.id (Periodo.controlador p) = n /\
                      Periodo.sector p <> None.
Proof.
  intros est periodos.
  pose proof (reparte_spc periodos) as Hspc.
  pose proof (reparte_periodos periodos) as Hrp.
  unfold identifica_grupos.
  destruct (reparte periodos) as [spc ppc]; simpl in Hspc, Hrp.
  destruct Hspc as (Hnd & Hne & Hin).
  destruct (bucle_grupos_particion est spc ppc (List.length (keys spc)) (keys spc) []
              (ids_de spc)) as (gs & E & Hp).
  - lia.
  - reflexivity.
  - exact Hnd.
  - intros c Hc; split.
    + destruct (dict_get_ids spc c Hc) as (k & v & Hkv & Eg).
      unfold dict_dflt; rewrite Eg; rewrite Forall_forall in Hne; exact (Hne _ Hkv).
    + rewrite Hrp; apply Hin in Hc as (p & Hp & Ep & _).
      assert (Hpp : In p (periodos_de c periodos)).
      { unfold periodos_de; apply filter_In; split; [exact Hp|].
        unfold ATC.eqb; rewrite Ep; apply Nat.eqb_refl. }
      intros E0; rewrite E0 in Hpp; destruct Hpp.
  - exists gs; split; [exact E|split].
    + eapply Permutation_NoDup; [symmetry; exact Hp|exact Hnd].
    + intros n; rewrite <- Hin; split; intros H;
        [eapply Permutation_in; [exact Hp|exact H] | eapply Permutation_in; [symmetry; exact Hp|exact H]].
Qed.

(** X1: [identifica_grupos] never raises; every controller with at least one
    period in a sector belongs to exactly one group, once, and a controller
    whose periods have no sector (rest only) belongs to none. *)
Theorem identifica_grupos_particion : forall est periodos,
  exists gs, identifica_grupos est periodos = Ok gs /\ NoDup (ids_grupos gs) /\
  forall n, In n (ids_grupos gs) <->
            exists p, In p periodos /\ ATC.id (Periodo.controlador p) = n /\
                      Periodo.sector p <> None.
Proof. exact identifica_grupos_reparto. Qed.

Lemma in_ids_grupos : forall gs g c ps,
  In g gs -> In (c, ps) (Grupo.controladores g) -> In (ATC.id c) (ids_grupos gs).
Proof.
  intros gs g c ps Hg Hc; unfold ids_grupos; apply in_concat.
  exists (ids_de (Grupo.controladores g)); split; [apply (in_map (fun g => ids_de (Grupo.controladores g)) _ _ Hg)|].
  unfold ids_de, keys; rewrite map_map; apply (in_map (fun x => ATC.id (fst x)) _ _ Hc).
Qed.

(** X2: every group returned by [identifica_grupos] belongs to the given
    estadillo, has no anchor yet, and lists for each member the member's whole
    list of periods, in input order, which is never empty. *)
Theorem identifica_grupos_miembros : forall est periodos gs g,
  identifica_grupos est periodos = Ok gs -> In g gs ->
  Grupo.estadillo g = est /\ Grupo.anchor g = None /\
  forall c ps, In (c, ps) (Grupo.controladores g) ->
               ps = periodos_de c periodos /\ ps <> [].
Proof.
  intros est periodos gs g H Hin.
  pose proof (identifica_grupos_bien_formados est periodos gs H) as F.
  rewrite Forall_forall in F; destruct (F g Hin) as (E1 & E2 & Hok & _).
  split; [exact E1|split; [exact E2|]].
  intros c ps Hc; unfold entradas_ok in Hok; rewrite Forall_forall in Hok.
  pose proof (Hok _ Hc) as Eps; simpl in Eps; rewrite reparte_periodos in Eps.
  split; [exact Eps|].
  destruct (identifica_grupos_reparto est periodos) as (gs' & E' & _ & Hids).
  rewrite H in E'; injection E' as <-.
  pose proof (in_ids_grupos gs g c ps Hin Hc) as Hc'.
  apply Hids in Hc' as (p & Hp & Ep & _).
  intros E0.
  assert (Hpp : In p ps).
  { rewrite Eps; unfold periodos_de; apply filter_In; split; [exact Hp|].
    unfold ATC.eqb; rewrite Ep; apply Nat.eqb_refl. }
  rewrite E0 in Hpp; destruct Hpp.
Qed.

Lemma identifica_grupos_miembros_witness :
  exists gs g, identifica_grupos est0 roster_regular = Ok gs /\ In g gs /\
  Grupo.estadillo g = est0 /\ Grupo.anchor g = None /\
  forall c ps, In (c, ps) (Grupo.controladores g) ->
               ps = periodos_de c roster_regular /\ ps <> [].
Proof.
  eexists; eexists; split; [reflexivity|]; split; [left; reflexivity|].
  eapply (identifica_grupos_miembros est0 roster_regular); [reflexivity|left; reflexivity].
Defined.

(** ** [marca_anchor]: one anchor at most *)

Lemma nth_marca_en : forall grupos i p j,
  nth_error (marca_en i p grupos) j =
  if Nat.eqb j i then option_map (fun g => con_anchor g p) (nth_error grupos j)
  else nth_error grupos j.
Proof.
  induction grupos as [|g r IH]; intros i p j.
  - assert (E : marca_en i p [] = []) by (destruct i; reflexivity).
    rewrite E; destruct (Nat.eqb j i), j; reflexivity.
  - destruct i as [|i], j as [|j]; cbn [marca_en nth_error Nat.eqb option_map];
      try reflexivity; apply IH.
Qed.

Lemma indice_de_usuario_lt : forall u grupos i,
  indice_de_usuario u grupos = Some i -> (i < List.length grupos)%nat.
Proof.
  intros u grupos; induction grupos as [|g r IH]; intros i H; simpl in H; [discriminate|].
  destruct (dict_mem _ u); [injection H as <-; simpl; lia|].
  destruct (indice_de_usuario u r) as [k|] eqn:E; simpl in H; [|discriminate].
  injection H as <-; specialize (IH k eq_refl); simpl; lia.
Qed.

(** X3: [marca_anchor] never raises; it either leaves the groups as they are
    or changes one field of one group: the anchor of the group at some position
    [i], set to a period active at [now]; every other group is untouched. *)
Theorem marca_anchor_un_grupo : forall grupos user now,
  exists gs', marca_anchor grupos user now = Ok gs' /\
  (gs' = grupos \/
   exists i p, (i < List.length grupos)%nat /\ In p (periodos_activos grupos now) /\
     forall j, nth_error gs' j =
               if Nat.eqb j i then option_map (fun g => con_anchor g p) (nth_error grupos j)
               else nth_error grupos j).
Proof.
  intros grupos user now.
  assert (Hm : forall i p, (i < List.length grupos)%nat -> In p (periodos_activos grupos now) ->
            exists i' p', (i' < List.length grupos)%nat /\ In p' (periodos_activos grupos now) /\
              forall j, nth_error (marca_en i p grupos) j =
                if Nat.eqb j i' then option_map (fun g => con_anchor g p') (nth_error grupos j)
                else nth_error grupos j).
  { intros i p Hi Hp; exists i, p; split; [exact Hi|split; [exact Hp|]].
    intros j; apply nth_marca_en. }
  unfold marca_anchor.
  destruct (match user with
            | Some u => rama_usuario u grupos (periodos_activos grupos now)
            | None => None end) as [gs|] eqn:Eu.
  - exists gs; split; [reflexivity|right].
    destruct user as [u|]; [|discriminate].
    rewrite rama_usuario_eq in Eu.
    destruct (find _ _) as [p|] eqn:Ef; [|discriminate].
    destruct (indice_de_usuario u grupos) as [i|] eqn:Ei; simpl in Eu; [|discriminate].
    injection Eu as <-; apply Hm; [eapply indice_de_usuario_lt; exact Ei|].
    apply find_some in Ef as [Ef _]; exact Ef.
  - destruct (periodos_activos grupos now) as [|a l] eqn:Ea; [eexists; split; [reflexivity|auto]|].
    destruct grupos as [|g0 r0] eqn:Eg; [discriminate|].
    unfold bind; simpl indice_max; cbv beta iota.
    destruct (nth_error _ _) as [gmax|] eqn:En; [|eexists; split; [reflexivity|auto]].
    destruct (find _ (a :: l)) as [p|] eqn:Ef; [|eexists; split; [reflexivity|auto]].
    eexists; split; [reflexivity|right].
    rewrite <- Eg in *.
    apply Hm; [apply nth_error_Some; congruence|].
    apply find_some in Ef as [Ef _]; exact Ef.
Qed.

(** ** [genera_datos_grupo]: one entry per controller, sorted sector names *)

Lemma inserta_str_perm : forall s l, Permutation (inserta_str s l) (s :: l).
Proof.
  intros s l; induction l as [|x r IH]; simpl; [reflexivity|].
  destruct (String.ltb s x); [reflexivity|].
  rewrite IH; apply perm_swap.
Qed.

Lemma ordena_str_perm : forall l, Permutation (ordena_str l) l.
Proof.
  unfold ordena_str.
  assert (G : forall l acc, Permutation (fold_left (fun acc s => inserta_str s acc) l acc)
                                        (acc ++ l)).
  { induction l as [|s r IH]; intros acc; simpl; [rewrite app_nil_r; reflexivity|].
    rewrite IH, inserta_str_perm; simpl.
    rewrite <- Permutation_middle; reflexivity. }
  intros l; apply (G l []).
Qed.

Lemma ltb_false_leb : forall s x, String.ltb s x = false -> String.leb x s = true.
Proof.
  intros s x H; unfold String.ltb, String.leb in *.
  rewrite String.compare_antisym.
  destruct (String.compare s x); simpl; congruence.
Qed.

Lemma ltb_leb : forall s x, String.ltb s x = true -> String.leb s x = true.
Proof.
  intros s x H; unfold String.ltb, String.leb in *.
  destruct (String.compare s x); congruence.
Qed.

Lemma inserta_str_sorted : forall s l,
  Sorted (fun a b => String.leb a b = true) l ->
  Sorted (fun a b => String.leb a b = true) (inserta_str s l).
Proof.
  intros s l; induction l as [|x r IH]; intros H; simpl.
  - repeat constructor.
  - destruct (String.ltb s x) eqn:E.
    + constructor; [exact H|constructor; apply ltb_leb; exact E].
    + apply Sorted_inv in H as [Hr Hx].
      constructor; [apply IH; exact Hr|].
      destruct r as [|y r']; simpl.
      * constructor; apply ltb_false_leb; exact E.
      * destruct (String.ltb s y); constructor;
          [apply ltb_false_leb; exact E|inversion Hx; assumption].
Qed.

Lemma ordena_str_sorted : forall l, Sorted (fun a b => String.leb a b = true) (ordena_str l).
Proof.
  unfold ordena_str.
  assert (G : forall l acc, Sorted (fun a b => String.leb a b = true) acc ->
     Sorted (fun a b => String.leb a b = true) (fold_left (fun acc s => inserta_str s acc) l acc)).
  { induction l as [|s r IH]; intros acc H; simpl; [exact H|].
    apply IH, inserta_str_sorted, H. }
  intros l; apply G; constructor.
Qed.

Lemma periodos_data_len : forall grupo tz now cm ps ds cm',
  periodos_data grupo tz now cm ps = Ok (ds, cm') -> List.length ds = List.length ps.
Proof.
  intros grupo tz now cm ps; revert cm; induction ps as [|p r IH]; intros cm ds cm' H;
    simpl in H.
  - injection H as <- <-; reflexivity.
  - destruct (periodo_data grupo tz now cm p) as [[d cm1]|e]; simpl in H; [|discriminate].
    destruct (periodos_data grupo tz now cm1 r) as [[ds1 cm2]|e] eqn:E; simpl in H;
      [|discriminate].
    injection H as <- <-; simpl; f_equal; eapply IH; exact E.
Qed.

Lemma atcs_data_refleja : forall grupo tz user now cm ctrls es cm',
  atcs_data grupo tz user now cm ctrls = Ok (es, cm') ->
  map EstadilloPersonalData.nombre es = map (fun cp => ATC.nombre_apellidos (fst cp)) ctrls /\
  map (fun e => List.length (EstadilloPersonalData.periodos e)) es =
    map (fun cp => List.length (snd cp)) ctrls /\
  map EstadilloPersonalData.usuario_actual es =
    map (fun cp => match user with Some u => ATC.eqb (fst cp) u | None => false end) ctrls.
Proof.
  intros grupo tz user now cm ctrls; revert cm;
    induction ctrls as [|[c ps] r IH]; intros cm es cm' H; simpl in H.
  - injection H as <- <-; repeat split.
  - destruct (periodos_data grupo tz now cm ps) as [[ds cm1]|e] eqn:Ep; simpl in H;
      [|discriminate].
    destruct (atcs_data grupo tz user now cm1 r) as [[rest cm2]|e] eqn:E; simpl in H;
      [|discriminate].
    injection H as <- <-.
    destruct (IH _ _ _ E) as (H1 & H2 & H3); simpl.
    rewrite H1, H2, H3, (periodos_data_len _ _ _ _ _ _ _ Ep); repeat split.
Qed.

(** X4: when [genera_datos_grupo] succeeds, its [atcs] list has one entry per
    controller of the group, in the group's order, with the controller's name,
    as many period rows as the controller has periods, and [usuario_actual] set
    exactly for the controller equal to [user]; its [sectores] are the group's
    sector names, sorted. *)
Theorem genera_datos_grupo_estructura : forall grupo cm tz user now gd cm',
  genera_datos_grupo grupo cm tz user now = Ok (gd, cm') ->
  map EstadilloPersonalData.nombre (GrupoDatos.atcs gd) =
    map (fun cp => ATC.nombre_apellidos (fst cp)) (Grupo.controladores grupo) /\
  map (fun e => List.length (EstadilloPersonalData.periodos e)) (GrupoDatos.atcs gd) =
    map (fun cp => List.length (snd cp)) (Grupo.controladores grupo) /\
  map EstadilloPersonalData.usuario_actual (GrupoDatos.atcs gd) =
    map (fun cp => match user with Some u => ATC.eqb (fst cp) u | None => false end)
        (Grupo.controladores grupo) /\
  Permutation (GrupoDatos.sectores gd) (map Sector.nombre (Grupo.sectores grupo)) /\
  Sorted (fun a b => String.leb a b = true) (GrupoDatos.sectores gd).
Proof.
  intros grupo cm tz user now gd cm' H; unfold genera_datos_grupo in H.
  destruct (atcs_data grupo tz user now cm (Grupo.controladores grupo))
    as [[atcs cm1]|e] eqn:Ea; simpl in H; [|discriminate].
  destruct (genera_horas_de_inicio _ _ _) as [hs|e]; simpl in H; [|discriminate].
  destruct (calcula_marcador grupo now) as [m|e]; simpl in H; [|discriminate].
  injection H as <- <-; simpl.
  destruct (atcs_data_refleja _ _ _ _ _ _ _ _ Ea) as (H1 & H2 & H3).
  repeat split; auto using ordena_str_perm, ordena_str_sorted.
Qed.

Lemma genera_datos_grupo_estructura_witness :
  exists gd cm', genera_datos_grupo grupo_grande color_manager_nuevo utc (Some atcA) (hm 8 30)
                 = Ok (gd, cm') /\
  map EstadilloPersonalData.nombre (GrupoDatos.atcs gd) =
    map (fun cp => ATC.nombre_apellidos (fst cp)) (Grupo.controladores grupo_grande) /\
  map (fun e => List.length (EstadilloPersonalData.periodos e)) (GrupoDatos.atcs gd) =
    map (fun cp => List.length (snd cp)) (Grupo.controladores grupo_grande) /\
  map EstadilloPersonalData.usuario_actual (GrupoDatos.atcs gd) =
    map (fun cp => ATC.eqb (fst cp) atcA) (Grupo.controladores grupo_grande) /\
  Permutation (GrupoDatos.sectores gd) (map Sector.nombre (Grupo.sectores grupo_grande)) /\
  Sorted (fun a b => String.leb a b = true) (GrupoDatos.sectores gd).
Proof.
  eexists; eexists; split; [vm_compute; reflexivity|].
  eapply (genera_datos_grupo_estructura grupo_grande color_manager_nuevo utc (Some atcA) (hm 8 30)).
  vm_compute; reflexivity.
Defined.

(** ** [genera_datos_estadillo]: a viewer outside every group *)

Lemma marca_en_controladores : forall i p gs,
  map Grupo.controladores (marca_en i p gs) = map Grupo.controladores gs.
Proof.
  intros i p gs; revert i; induction gs as [|g r IH]; intros [|i]; simpl;
    try reflexivity; f_equal; apply IH.
Qed.

Lemma marca_anchor_controladores : forall grupos user now gs',
  marca_anchor grupos user now = Ok gs' ->
  map Grupo.controladores gs' = map Grupo.controladores grupos.
Proof.
  intros grupos user now gs' H; unfold marca_anchor in H.
  destruct (match user with
            | Some u => rama_usuario u grupos (periodos_activos grupos now)
            | None => None end) as [gs|] eqn:Eu.
  - injection H as <-.
    destruct user as [u|]; [|discriminate].
    rewrite rama_usuario_eq in Eu.
    destruct (find _ _) as [p|]; [|discriminate].
    destruct (indice_de_usuario u grupos) as [i|]; simpl in Eu; [|discriminate].
    injection Eu as <-; apply marca_en_controladores.
  - destruct (periodos_activos grupos now) as [|a l]; [injection H as <-; reflexivity|].
    destruct (indice_max grupos) as [i|e]; simpl in H; [|discriminate].
    destruct (nth_error grupos i) as [gmax|]; [|injection H as <-; reflexivity].
    match type of H with
    | match ?f with Some _ => _ | None => _ end = _ => destruct f as [p|]
    end; injection H as <-; [apply marca_en_controladores|reflexivity].
Qed.

Lemma ids_grupos_controladores : forall gs1 gs2,
  map Grupo.controladores gs1 = map Grupo.controladores gs2 -> ids_grupos gs1 = ids_grupos gs2.
Proof.
  intros gs1 gs2 H; unfold ids_grupos.
  rewrite <- (map_map Grupo.controladores ids_de gs1), <- (map_map Grupo.controladores ids_de gs2), H.
  reflexivity.
Qed.

Lemma genera_datos_grupo_marcas : forall grupo cm tz user now gd cm',
  genera_datos_grupo grupo cm tz user now = Ok (gd, cm') ->
  map EstadilloPersonalData.usuario_actual (GrupoDatos.atcs gd) =
    map (fun cp => match user with Some u => ATC.eqb (fst cp) u | None => false end)
        (Grupo.controladores grupo).
Proof.
  intros grupo cm tz user now gd cm' H; unfold genera_datos_grupo in H.
  destruct (atcs_data grupo tz user now cm (Grupo.controladores grupo))
    as [[atcs cm1]|e] eqn:Ea; simpl in H; [|discriminate].
  destruct (genera_horas_de_inicio _ _ _) as [hs|e]; simpl in H; [|discriminate].
  destruct (calcula_marcador grupo now) as [m|e]; simpl in H; [|discriminate].
  injection H as <- <-; simpl.
  apply (atcs_data_refleja _ _ _ _ _ _ _ _ Ea).
Qed.

Lemma grupos_datos_de_sin_marca : forall gs cm tz u now gds,
  grupos_datos_de gs cm tz (Some u) now = Ok gds ->
  ~ In (ATC.id u) (ids_grupos gs) ->
  Forall (fun a => EstadilloPersonalData.usuario_actual a = false)
         (flat_map GrupoDatos.atcs gds).
Proof.
  induction gs as [|g r IH]; intros cm tz u now gds H Hn; simpl in H.
  - injection H as <-; constructor.
  - destruct (genera_datos_grupo g cm tz (Some u) now) as [[gd cm1]|e] eqn:Eg; simpl in H;
      [|discriminate].
    destruct (grupos_datos_de r cm1 tz (Some u) now) as [rest|e] eqn:Er; simpl in H;
      [|discriminate].
    injection H as <-; simpl; apply Forall_app; split.
    + apply Forall_forall; intros a Ha.
      pose proof (genera_datos_grupo_marcas _ _ _ _ _ _ _ Eg) as Hm.
      destruct (EstadilloPersonalData.usuario_actual a) eqn:Ef; [|reflexivity].
      exfalso; apply Hn.
      assert (Hin : In true (map EstadilloPersonalData.usuario_actual (GrupoDatos.atcs gd)))
        by (rewrite <- Ef; apply in_map, Ha).
      rewrite Hm in Hin; apply in_map_iff in Hin as ([c ps] & Ec & Hc); simpl in Ec.
      unfold ATC.eqb in Ec; apply Nat.eqb_eq in Ec; rewrite <- Ec.
      apply (in_ids_grupos (g :: r) g c ps); [left; reflexivity|exact Hc].
    + apply (IH cm1 tz u now rest Er).
      intros Hi; apply Hn; unfold ids_grupos in *; simpl; apply in_or_app; right; exact Hi.
Qed.

(** X7: if the viewer [u] has no period with a sector in the roster, the whole
    pipeline [genera_datos_estadillo] with that viewer fails: the viewer is in
    no group, no entry is flagged as theirs, and [generar_estadillo_personal]
    raises its [ValueError] (unless an earlier step already failed). *)
Theorem genera_datos_estadillo_usuario_ausente : forall est periodos u tz now,
  (forall p, In p periodos -> ATC.id (Periodo.controlador p) = ATC.id u ->
             Periodo.sector p = None) ->
  exists e, genera_datos_estadillo est periodos (Some u) tz now = Err e.
Proof.
  intros est periodos u tz now Hu.
  destruct (identifica_grupos_reparto est periodos) as (gs & Eg & _ & Hids).
  unfold genera_datos_estadillo; rewrite Eg; simpl.
  destruct (marca_anchor gs (Some u) now) as [gs'|e] eqn:Em; simpl; [|eexists; reflexivity].
  destruct (grupos_datos_de gs' color_manager_nuevo tz (Some u) now) as [gds|e] eqn:Ed; simpl;
    [|eexists; reflexivity].
  assert (Hn : ~ In (ATC.id u) (ids_grupos gs')).
  { rewrite (ids_grupos_controladores gs' gs (marca_anchor_controladores _ _ _ _ Em)).
    intros Hi; apply Hids in Hi as (p & Hp & Hc & Hs).
    apply Hs, Hu; assumption. }
  pose proof (grupos_datos_de_sin_marca _ _ _ _ _ _ Ed Hn) as Hf.
  unfold generar_estadillo_personal; fold (busca_personal gds).
  destruct (busca_personal gds) as [m|] eqn:Eb; [|eexists; reflexivity].
  exfalso; apply find_some in Eb as [Hm Hm'].
  rewrite Forall_forall in Hf; rewrite (Hf m Hm) in Hm'; discriminate.
Qed.

Lemma genera_datos_estadillo_usuario_ausente_witness :
  (forall p, In p roster_regular -> ATC.id (Periodo.controlador p) = ATC.id atcC ->
             Periodo.sector p = None) /\
  exists e, genera_datos_estadillo est0 roster_regular (Some atcC) utc (hm 8 30) = Err e.
Proof.
  assert (H : forall p, In p roster_regular -> ATC.id (Periodo.controlador p) = ATC.id atcC ->
                        Periodo.sector p = None).
  { intros p Hp; simpl in Hp; repeat destruct Hp as [<-|Hp]; simpl; try discriminate; destruct Hp. }
  split; [exact H|].
  apply (genera_datos_estadillo_usuario_ausente est0 roster_regular atcC utc (hm 8 30) H).
Defined.

(** ** [_genera_horas_de_inicio]: the header's slots and its failure *)

Lemma bucle_horas_franjas : forall tz dur fuel dq hs,
  (List.length dq <= fuel)%nat -> StronglySorted antes dq ->
  bucle_horas tz dur fuel dq = Ok hs ->
  exists ts, StronglySorted Z.lt ts /\
    (forall t, In t ts <-> exists p, In p dq /\ Periodo.hora_inicio p = t) /\
    map PeriodoData.hora_inicio hs = map (hhmm tz) ts /\
    Forall (fun e => PeriodoData.activo e = "FUT"%string /\
                     PeriodoData.scroll_anchor e = false) hs.
Proof.
  intros tz dur fuel; induction fuel as [|fuel IH]; intros dq hs Hl Hs H.
  - destruct dq; [|simpl in Hl; lia].
    simpl in H; injection H as <-; exists [].
    split; [constructor|split; [|split; [reflexivity|constructor]]].
    intros t; simpl; split; [intros []|intros (p & [] & _)].
  - simpl in H; destruct dq as [|cur r].
    + injection H as <-; exists [].
      split; [constructor|split; [|split; [reflexivity|constructor]]].
      intros t; simpl; split; [intros []|intros (p & [] & _)].
    + destruct (saca_iguales (Periodo.hora_inicio cur) cur r) as [cur' dq'] eqn:Esi.
      destruct (saca_iguales_spec _ _ _ _ _ Esi) as (pre & Er & Hpre & _ & Hn).
      unfold bind in H; destruct (porcentaje_de _ dur) as [pct|e]; [|discriminate].
      destruct (bucle_horas tz dur fuel dq') as [resto|e] eqn:Eb; [|discriminate].
      injection H as <-; subst r.
      assert (Hs' : StronglySorted antes dq').
      { apply StronglySorted_inv in Hs as [Hs _]; eapply StronglySorted_app_r; exact Hs. }
      assert (Hl' : (List.length dq' <= fuel)%nat)
        by (simpl in Hl; rewrite length_app in Hl; lia).
      destruct (IH dq' resto Hl' Hs' Eb) as (ts & Hts & Hin & Hmap & Hfut).
      assert (Hgt : forall p, In p dq' -> Periodo.hora_inicio cur < Periodo.hora_inicio p).
      { destruct dq' as [|q r']; [intros p []|].
        assert (Hcq : antes cur q).
        { apply StronglySorted_inv in Hs as [_ Hs]; rewrite Forall_forall in Hs; apply Hs.
          apply in_or_app; right; left; reflexivity. }
        apply StronglySorted_inv in Hs' as [_ Hq].
        unfold antes in Hcq; intros p [<-|Hp]; [lia|].
        rewrite Forall_forall in Hq; specialize (Hq p Hp); unfold antes in Hq; lia. }
      exists (Periodo.hora_inicio cur :: ts); split; [|split; [|split]].
      * constructor; [exact Hts|].
        apply Forall_forall; intros t Ht; apply Hin in Ht as (p & Hp & <-); apply Hgt, Hp.
      * intros t; split.
        -- intros [<-|Ht]; [exists cur; split; [left|]; reflexivity|].
           apply Hin in Ht as (p & Hp & <-); exists p; split; [|reflexivity].
           right; apply in_or_app; right; exact Hp.
        -- intros (p & [<-|Hp] & <-); [left; reflexivity|].
           apply in_app_or in Hp as [Hp|Hp].
           ++ left; rewrite Forall_forall in Hpre; symmetry; apply Hpre, Hp.
           ++ right; apply Hin; exists p; split; [exact Hp|reflexivity].
      * simpl; f_equal; exact Hmap.
      * constructor; [split; reflexivity|exact Hfut].
Qed.

(** X8: when [_genera_horas_de_inicio] succeeds, the header has one slot per
    distinct start instant among all the group's periods, in strictly
    increasing order of instant, each labelled with that instant as [%H:%M]
    in the time zone; every slot is marked ["FUT"] and is never the scroll
    anchor. *)
Theorem genera_horas_de_inicio_franjas : forall dur ctrls tz hs,
  genera_horas_de_inicio dur ctrls tz = Ok hs ->
  exists ts, StronglySorted Z.lt ts /\
    (forall t, In t ts <->
               exists p, In p (List.concat (map snd ctrls)) /\ Periodo.hora_inicio p = t) /\
    map PeriodoData.hora_inicio hs = map (hhmm tz) ts /\
    Forall (fun e => PeriodoData.activo e = "FUT"%string /\
                     PeriodoData.scroll_anchor e = false) hs.
Proof.
  intros dur ctrls tz hs H; unfold genera_horas_de_inicio in H.
  destruct (bucle_horas_franjas _ _ _ _ _ (le_n _) (ordena_ordenada _) H)
    as (ts & Hts & Hin & Hmap & Hfut).
  exists ts; split; [exact Hts|split; [|split; assumption]].
  intros t; rewrite Hin; split; intros (p & Hp & Ht); exists p; split; try exact Ht.
  - eapply Permutation_in; [apply ordena_perm|exact Hp].
  - eapply Permutation_in; [apply Permutation_sym, ordena_perm|exact Hp].
Qed.

Lemma genera_horas_de_inicio_franjas_witness :
  exists hs, genera_horas_de_inicio (Grupo.duracion grupo_grande)
               (Grupo.controladores grupo_grande) utc = Ok hs /\
  exists ts, StronglySorted Z.lt ts /\
    (forall t, In t ts <->
               exists p, In p (List.concat (map snd (Grupo.controladores grupo_grande))) /\
                         Periodo.hora_inicio p = t) /\
    map PeriodoData.hora_inicio hs = map (hhmm utc) ts /\
    Forall (fun e => PeriodoData.activo e = "FUT"%string /\
                     PeriodoData.scroll_anchor e = false) hs.
Proof.
  eexists; split; [vm_compute; reflexivity|].
  eapply (genera_horas_de_inicio_franjas (Grupo.duracion grupo_grande)
            (Grupo.controladores grupo_grande) utc).
  vm_compute; reflexivity.
Defined.

(** X9: [_genera_horas_de_inicio] raises (a [ZeroDivisionError]) exactly when
    the group's total duration is zero and the group has at least one period;
    with no periods it returns an empty header, whatever the duration. *)
Theorem genera_horas_de_inicio_falla : forall dur ctrls tz,
  ((exists e, genera_horas_de_inicio dur ctrls tz = Err e) <->
   dur = 0 /\ List.concat (map snd ctrls) <> []) /\
  (List.concat (map snd ctrls) = [] -> genera_horas_de_inicio dur ctrls tz = Ok []).
Proof.
  intros dur ctrls tz; split;
    [|intros E; unfold genera_horas_de_inicio; rewrite E; reflexivity].
  unfold genera_horas_de_inicio.
  split.
  - intros [e He]; split.
    + destruct (Z.eq_dec dur 0) as [|Hd]; [assumption|].
      destruct (bucle_horas_ok tz dur (List.length (ordena (List.concat (map snd ctrls))))
                  (ordena (List.concat (map snd ctrls))) Hd) as [hs Ehs].
      congruence.
    + intros E; rewrite E in He; discriminate.
  - intros [-> Hne].
    destruct (ordena (List.concat (map snd ctrls))) as [|cur r] eqn:Eo.
    + exfalso; apply Hne, Permutation_nil; rewrite <- Eo; apply ordena_perm.
    + simpl; destruct (saca_iguales _ cur r) as [cur' dq'].
      eexists; reflexivity.
Qed.

(** ** One colour table for the whole sheet *)

Lemma color_segun_extiende : forall cm cm' p c,
  extiende cm cm' -> color_segun (ColorManager.sector_colors cm) p c ->
  color_segun (ColorManager.sector_colors cm') p c.
Proof.
  intros cm cm' p c He H; unfold color_segun in *.
  destruct (String.eqb (Periodo.actividad p) "D"); [exact H|].
  destruct H as (s & e & pl & Hs & Hg & Hc); exists s, e, pl; auto.
Qed.

Lemma genera_color_segun : forall p cm c cm1,
  genera_color p cm = Ok (c, cm1) ->
  extiende cm cm1 /\ color_segun (ColorManager.sector_colors cm1) p c.
Proof.
  intros p cm c cm1 H; unfold genera_color in H; unfold color_segun.
  destruct (String.eqb (Periodo.actividad p) "D").
  - injection H as <- <-; split; [intros k v Hk; exact Hk|reflexivity].
  - destruct (Periodo.sector p) as [s|]; [|discriminate].
    split; [intros k v Hk; eapply get_color_conserva; eassumption|].
    destruct (get_color_asigna _ _ _ _ _ H) as (e & pl & Hg & Hc).
    exists s, e, pl; auto.
Qed.

Lemma periodo_data_segun : forall grupo tz now cm p d cm1,
  periodo_data grupo tz now cm p = Ok (d, cm1) ->
  extiende cm cm1 /\ color_segun (ColorManager.sector_colors cm1) p (PeriodoData.color d).
Proof.
  intros grupo tz now cm p d cm1 H; unfold periodo_data, bind in H.
  destruct (genera_actividad p) as [a|e]; [|discriminate].
  destruct (genera_color p cm) as [[col cm2]|e] eqn:Ec; [|discriminate].
  destruct (porcentaje_de _ _) as [pct|e]; [|discriminate].
  injection H as <- <-; apply (genera_color_segun _ _ _ _ Ec).
Qed.

Lemma periodos_data_segun : forall grupo tz now ps cm ds cm',
  periodos_data grupo tz now cm ps = Ok (ds, cm') ->
  extiende cm cm' /\
  Forall2 (fun p d => color_segun (ColorManager.sector_colors cm') p (PeriodoData.color d)) ps ds.
Proof.
  intros grupo tz now ps; induction ps as [|p r IH]; intros cm ds cm' H; simpl in H.
  - injection H as <- <-; split; [intros k v Hk; exact Hk|constructor].
  - destruct (periodo_data grupo tz now cm p) as [[d cm1]|e] eqn:Ep; simpl in H; [|discriminate].
    destruct (periodos_data grupo tz now cm1 r) as [[ds1 cm2]|e] eqn:Er; simpl in H;
      [|discriminate].
    injection H as <- <-.
    destruct (periodo_data_segun _ _ _ _ _ _ _ Ep) as [He1 Hc1].
    destruct (IH _ _ _ Er) as [He2 Hc2].
    split; [intros k v Hk; apply He2, He1, Hk|].
    constructor; [eapply color_segun_extiende; eassumption|exact Hc2].
Qed.

Lemma atcs_data_segun : forall grupo tz user now ctrls cm es cm',
  atcs_data grupo tz user now cm ctrls = Ok (es, cm') ->
  extiende cm cm' /\
  Forall2 (fun cp e => Forall2 (fun p d => color_segun (ColorManager.sector_colors cm') p
                                                       (PeriodoData.color d))
                               (snd cp) (EstadilloPersonalData.periodos e)) ctrls es.
Proof.
  intros grupo tz user now ctrls; induction ctrls as [|[c ps] r IH]; intros cm es cm' H;
    simpl in H.
  - injection H as <- <-; split; [intros k v Hk; exact Hk|constructor].
  - destruct (periodos_data grupo tz now cm ps) as [[ds cm1]|e] eqn:Ep; simpl in H;
      [|discriminate].
    destruct (atcs_data grupo tz user now cm1 r) as [[rest cm2]|e] eqn:Er; simpl in H;
      [|discriminate].
    injection H as <- <-.
    destruct (periodos_data_segun _ _ _ _ _ _ _ Ep) as [He1 Hc1].
    destruct (IH _ _ _ Er) as [He2 Hc2].
    split; [intros k v Hk; apply He2, He1, Hk|].
    constructor; [|exact Hc2]; simpl.
    eapply Forall2_impl; [|exact Hc1].
    intros p d Hpd; eapply color_segun_extiende; eassumption.
Qed.

Lemma genera_datos_grupo_segun : forall grupo cm tz user now gd cm',
  genera_datos_grupo grupo cm tz user now = Ok (gd, cm') ->
  extiende cm cm' /\ grupo_coloreado (ColorManager.sector_colors cm') grupo gd.
Proof.
  intros grupo cm tz user now gd cm' H; unfold genera_datos_grupo in H.
  destruct (atcs_data grupo tz user now cm (Grupo.controladores grupo))
    as [[atcs cm1]|e] eqn:Ea; simpl in H; [|discriminate].
  destruct (genera_horas_de_inicio _ _ _) as [hs|e]; simpl in H; [|discriminate].
  destruct (calcula_marcador grupo now) as [m|e]; simpl in H; [|discriminate].
  injection H as <- <-; apply (atcs_data_segun _ _ _ _ _ _ _ _ Ea).
Qed.

Lemma grupo_coloreado_extiende : forall cm cm' g gd,
  extiende cm cm' -> grupo_coloreado (ColorManager.sector_colors cm) g gd ->
  grupo_coloreado (ColorManager.sector_colors cm') g gd.
Proof.
  intros cm cm' g gd He H; unfold grupo_coloreado in *.
  eapply Forall2_impl; [|exact H]; intros cp e H1.
  eapply Forall2_impl; [|exact H1]; intros p d H2.
  eapply color_segun_extiende; eassumption.
Qed.

Lemma grupos_datos_de_segun : forall gs cm tz user now gds,
  grupos_datos_de gs cm tz user now = Ok gds ->
  exists cmf, extiende cm cmf /\
    Forall2 (grupo_coloreado (ColorManager.sector_colors cmf)) gs gds.
Proof.
  induction gs as [|g r IH]; intros cm tz user now gds H; simpl in H.
  - injection H as <-; exists cm; split; [intros k v Hk; exact Hk|constructor].
  - destruct (genera_datos_grupo g cm tz user now) as [[gd cm1]|e] eqn:Eg; simpl in H;
      [|discriminate].
    destruct (grupos_datos_de r cm1 tz user now) as [rest|e] eqn:Er; simpl in H;
      [|discriminate].
    injection H as <-.
    destruct (genera_datos_grupo_segun _ _ _ _ _ _ _ Eg) as [He1 Hc1].
    destruct (IH _ _ _ _ _ Er) as (cmf & He2 & Hc2).
    exists cmf; split; [intros k v Hk; apply He2, He1, Hk|].
    constructor; [eapply grupo_coloreado_extiende; eassumption|exact Hc2].
Qed.

Lemma grupo_coloreado_controladores : forall T g g' gd,
  Grupo.controladores g = Grupo.controladores g' ->
  grupo_coloreado T g gd -> grupo_coloreado T g' gd.
Proof. intros T g g' gd E H; unfold grupo_coloreado in *; rewrite <- E; exact H. Qed.

Lemma Forall2_map_controladores : forall T gs gs' gds,
  map Grupo.controladores gs = map Grupo.controladores gs' ->
  Forall2 (grupo_coloreado T) gs gds -> Forall2 (grupo_coloreado T) gs' gds.
Proof.
  induction gs as [|g r IH]; intros [|g' r'] gds E H; simpl in E; try discriminate.
  - exact H.
  - injection E as E1 E2; inversion H as [|? gd ? rest Hg Hr]; subst.
    constructor; [eapply grupo_coloreado_controladores; eassumption|apply IH; assumption].
Qed.

(** X10: when [genera_datos_estadillo] succeeds, a single table [T] from sector
    name to (executive colour, planner colour) explains the colour of every
    row of every group: matching each group found by [identifica_grupos] with
    its data, each controller with its entry and each period with its row, a
    rest period ("D") is white and any other period shows its sector's
    executive colour when its activity is "E" and the planner colour
    otherwise.  So a sector has the same colours in every group of the sheet. *)
Theorem genera_datos_estadillo_colores : forall est periodos user tz now d,
  genera_datos_estadillo est periodos user tz now = Ok d ->
  exists gs T, identifica_grupos est periodos = Ok gs /\
    Forall2 (grupo_coloreado T) gs (DatosEstadilloCompleto.grupos d).
Proof.
  intros est periodos user tz now d H; unfold genera_datos_estadillo in H.
  destruct (identifica_grupos est periodos) as [gs|e] eqn:Eg; simpl in H; [|discriminate].
  destruct (marca_anchor gs user now) as [gs'|e] eqn:Em; simpl in H; [|discriminate].
  destruct (grupos_datos_de gs' color_manager_nuevo tz user now) as [gds|e] eqn:Ed; simpl in H;
    [|discriminate].
  destruct (match user with
            | Some u => let* v := generar_estadillo_personal est gds u in Ok (Some v)
            | None => Ok None end) as [mi|e]; simpl in H; [|discriminate].
  injection H as <-; simpl.
  destruct (grupos_datos_de_segun _ _ _ _ _ _ Ed) as (cmf & _ & Hc).
  exists gs, (ColorManager.sector_colors cmf); split; [reflexivity|].
  eapply Forall2_map_controladores; [|exact Hc].
  apply (marca_anchor_controladores _ _ _ _ Em).
Qed.

Lemma genera_datos_estadillo_colores_witness :
  exists d, genera_datos_estadillo est0 roster_cadena (Some atcB) utc (hm 8 30) = Ok d /\
  exists gs T, identifica_grupos est0 roster_cadena = Ok gs /\
    Forall2 (grupo_coloreado T) gs (DatosEstadilloCompleto.grupos d).
Proof.
  eexists; split; [vm_compute; reflexivity|].
  eapply (genera_datos_estadillo_colores est0 roster_cadena (Some atcB) utc (hm 8 30)).
  vm_compute; reflexivity.
Defined.

(** ** A group of zero duration breaks the whole sheet *)

Lemma marca_en_map : forall {A} (f : Grupo.t -> A) i p gs,
  (forall g, f (con_anchor g p) = f g) -> map f (marca_en i p gs) = map f gs.
Proof.
  intros A f i p gs Hf; revert i; induction gs as [|g r IH]; intros [|i]; simpl;
    try reflexivity; f_equal; auto.
Qed.

Lemma marca_anchor_map : forall {A} (f : Grupo.t -> A) grupos user now gs',
  (forall g p, f (con_anchor g p) = f g) ->
  marca_anchor grupos user now = Ok gs' -> map f gs' = map f grupos.
Proof.
  intros A f grupos user now gs' Hf H; unfold marca_anchor in H.
  destruct (match user with
            | Some u => rama_usuario u grupos (periodos_activos grupos now)
            | None => None end) as [gs|] eqn:Eu.
  - injection H as <-.
    destruct user as [u|]; [|discriminate].
    rewrite rama_usuario_eq in Eu.
    destruct (find _ _) as [p|]; [|discriminate].
    destruct (indice_de_usuario u grupos) as [i|]; simpl in Eu; [|discriminate].
    injection Eu as <-; apply marca_en_map; auto.
  - destruct (periodos_activos grupos now) as [|a l]; [injection H as <-; reflexivity|].
    destruct (indice_max grupos) as [i|e]; simpl in H; [|discriminate].
    destruct (nth_error grupos i) as [gmax|]; [|injection H as <-; reflexivity].
    match type of H with
    | match ?f with Some _ => _ | None => _ end = _ => destruct f as [p|]
    end; injection H as <-; [apply marca_en_map; auto|reflexivity].
Qed.

Lemma genera_horas_de_inicio_cero : forall ctrls tz,
  List.concat (map snd ctrls) <> [] -> exists e, genera_horas_de_inicio 0 ctrls tz = Err e.
Proof.
  intros ctrls tz Hne; unfold genera_horas_de_inicio.
  destruct (ordena (List.concat (map snd ctrls))) as [|cur r] eqn:Eo.
  - exfalso; apply Hne, Permutation_nil; rewrite <- Eo; apply ordena_perm.
  - simpl; destruct (saca_iguales _ cur r) as [cur' dq'].
    eexists; reflexivity.
Qed.

Lemma genera_datos_grupo_cero : forall grupo cm tz user now,
  Grupo.duracion grupo = 0 -> List.concat (map snd (Grupo.controladores grupo)) <> [] ->
  exists e, genera_datos_grupo grupo cm tz user now = Err e.
Proof.
  intros grupo cm tz user now Hd Hne; unfold genera_datos_grupo.
  destruct (atcs_data grupo tz user now cm (Grupo.controladores grupo)) as [[atcs cm1]|e];
    simpl; [|eexists; reflexivity].
  rewrite Hd; destruct (genera_horas_de_inicio_cero _ tz Hne) as [e He]; rewrite He.
  eexists; reflexivity.
Qed.

Lemma grupos_datos_de_falla : forall gs cm tz user now g,
  In g gs -> (forall cm, exists e, genera_datos_grupo g cm tz user now = Err e) ->
  exists e, grupos_datos_de gs cm tz user now = Err e.
Proof.
  induction gs as [|g0 r IH]; intros cm tz user now g Hin Hg; [destruct Hin|]; simpl.
  destruct Hin as [<-|Hin].
  - destruct (Hg cm) as [e He]; rewrite He; eexists; reflexivity.
  - destruct (genera_datos_grupo g0 cm tz user now) as [[gd cm1]|e]; simpl;
      [|eexists; reflexivity].
    destruct (IH cm1 tz user now g Hin Hg) as [e He]; rewrite He; eexists; reflexivity.
Qed.

(** X11: if one of the groups [identifica_grupos] finds has a duration of zero
    minutes (for instance a single 24-hour shift, whose duration wraps to 0),
    [genera_datos_estadillo] raises for every viewer and every instant: the
    percentages of that group divide by zero. *)
Theorem genera_datos_estadillo_duracion_cero : forall est periodos user tz now gs g,
  identifica_grupos est periodos = Ok gs -> In g gs -> Grupo.duracion g = 0 ->
  exists e, genera_datos_estadillo est periodos user tz now = Err e.
Proof.
  intros est periodos user tz now gs g Eg Hin Hd.
  pose proof (identifica_grupos_bien_formados est periodos gs Eg) as F.
  rewrite Forall_forall in F; destruct (F g Hin) as (_ & _ & _ & c & pi & v & rest & Ec & _).
  unfold genera_datos_estadillo; rewrite Eg; simpl.
  destruct (marca_anchor gs user now) as [gs'|e] eqn:Em; simpl; [|eexists; reflexivity].
  pose proof (marca_anchor_map (fun g => (Grupo.controladores g, Grupo.duracion g))
                _ _ _ _ (fun g p => eq_refl) Em) as Hmap.
  assert (Hin' : In (Grupo.controladores g, Grupo.duracion g)
                    (map (fun g => (Grupo.controladores g, Grupo.duracion g)) gs'))
    by (rewrite Hmap; apply (in_map (fun g => (Grupo.controladores g, Grupo.duracion g))), Hin).
  apply in_map_iff in Hin' as (g' & Eg' & Hg'); injection Eg' as Ec' Ed'.
  destruct (grupos_datos_de_falla gs' color_manager_nuevo tz user now g' Hg') as [e He].
  - intros cm; apply genera_datos_grupo_cero; [congruence|].
    rewrite Ec', Ec; simpl; discriminate.
  - rewrite He; eexists; reflexivity.
Qed.

Lemma genera_datos_estadillo_duracion_cero_witness :
  exists gs g, identifica_grupos est_dia roster_dia = Ok gs /\ In g gs /\
    Grupo.duracion g = 0 /\
    exists e, genera_datos_estadillo est_dia roster_dia (Some atcA) utc (hm 9 0) = Err e.
Proof.
  eexists; eexists; split; [vm_compute; reflexivity|]; split; [left; reflexivity|].
  split; [vm_compute; reflexivity|].
  eapply (genera_datos_estadillo_duracion_cero est_dia roster_dia (Some atcA) utc (hm 9 0));
    [vm_compute; reflexivity|left; reflexivity|vm_compute; reflexivity].
Defined.

(** ** How a row's activity is split when colleagues are matched *)

Lemma split_guion_no_vacio : forall s, split_guion s <> [].
Proof.
  intros [|c r]; simpl; [discriminate|].
  destruct (Ascii.eqb c "-"%char); [discriminate|].
  destruct (split_guion r); discriminate.
Qed.

Lemma split_guion_append : forall a s,
  split_guion (String.append a (String "-" s)) = split_guion a ++ split_guion s.
Proof.
  induction a as [|c r IH]; intros s; simpl; [reflexivity|].
  destruct (Ascii.eqb c "-"%char); [rewrite IH; reflexivity|].
  rewrite IH; destruct (split_guion r) as [|w ws] eqn:E;
    [exfalso; exact (split_guion_no_vacio r E)|reflexivity].
Qed.

Lemma last_app_no_vacio : forall {A} (l1 l2 : list A) d, l2 <> [] -> last (l1 ++ l2) d = last l2 d.
Proof.
  intros A l1 l2 d H; induction l1 as [|x r IH]; [reflexivity|].
  rewrite <- app_comm_cons; simpl; rewrite IH.
  destruct (r ++ l2) eqn:E; [|reflexivity].
  apply app_eq_nil in E as [_ E]; contradiction.
Qed.

(** X12: for a period with a sector and an activity other than "D" and "CAS",
    the row's activity is [actividad-sector] and, when colleagues are matched,
    [split("-")[-1]] of it is the last hyphen-separated piece of the sector's
    name (not the whole name) while [split("-")[0]] is the first piece of the
    period's activity.  Two sectors whose names end in the same piece, such as
    "N-1" and "S-1", are therefore matched as one. *)
Theorem genera_actividad_trozos : forall p s,
  Periodo.sector p = Some s -> Periodo.actividad p <> "D"%string ->
  Periodo.actividad p <> "CAS"%string ->
  exists a, genera_actividad p = Ok a /\
    trozo_final a = trozo_final (Sector.nombre s) /\
    trozo_inicial a = trozo_inicial (Periodo.actividad p).
Proof.
  intros p s Hs HD HC; unfold genera_actividad.
  apply String.eqb_neq in HD, HC; rewrite HD, HC, Hs.
  eexists; split; [reflexivity|].
  unfold trozo_final, trozo_inicial; rewrite split_guion_append.
  split; [apply last_app_no_vacio, split_guion_no_vacio|].
  destruct (split_guion (Periodo.actividad p)) as [|w ws] eqn:E;
    [exfalso; exact (split_guion_no_vacio _ E)|reflexivity].
Qed.

Lemma genera_actividad_trozos_witness :
  exists a, genera_actividad (Periodo.mk 9 atcA (Some (Sector.mk 4 "N-1")) (hm 8 0) (hm 9 0) "E")
            = Ok a /\
    trozo_final a = trozo_final "N-1" /\ trozo_inicial a = trozo_inicial "E".
Proof.
  eapply (genera_actividad_trozos (Periodo.mk 9 atcA (Some (Sector.mk 4 "N-1")) (hm 8 0) (hm 9 0) "E")
            (Sector.mk 4 "N-1")); [reflexivity|discriminate|discriminate].
Defined.

(** ** The viewer's personal view shows the viewer's own periods *)

Lemma periodos_data_duraciones : forall grupo tz now ps cm ds cm',
  periodos_data grupo tz now cm ps = Ok (ds, cm') ->
  map PeriodoData.duracion ds =
    map (fun p => minutos (Periodo.hora_fin p) (Periodo.hora_inicio p)) ps.
Proof.
  intros grupo tz now ps; induction ps as [|p r IH]; intros cm ds cm' H; simpl in H.
  - injection H as <- <-; reflexivity.
  - destruct (periodo_data grupo tz now cm p) as [[d cm1]|e] eqn:Ep; simpl in H; [|discriminate].
    destruct (periodos_data grupo tz now cm1 r) as [[ds1 cm2]|e] eqn:Er; simpl in H;
      [|discriminate].
    injection H as <- <-; simpl.
    rewrite (periodo_data_duracion _ _ _ _ _ _ _ Ep), (IH _ _ _ Er); reflexivity.
Qed.

Lemma atcs_data_filas : forall grupo tz user now ctrls cm es cm',
  atcs_data grupo tz user now cm ctrls = Ok (es, cm') ->
  forall e, In e es -> exists cp, In cp ctrls /\ fila_de user cp e.
Proof.
  intros grupo tz user now ctrls; induction ctrls as [|[c ps] r IH]; intros cm es cm' H;
    simpl in H.
  - injection H as <- <-; intros e [].
  - destruct (periodos_data grupo tz now cm ps) as [[ds cm1]|e] eqn:Ep; simpl in H;
      [|discriminate].
    destruct (atcs_data grupo tz user now cm1 r) as [[rest cm2]|e] eqn:Er; simpl in H;
      [|discriminate].
    injection H as <- <-.
    intros e [<-|He].
    + exists (c, ps); split; [left; reflexivity|].
      unfold fila_de; simpl; split; [reflexivity|split; [|reflexivity]].
      apply (periodos_data_duraciones _ _ _ _ _ _ _ Ep).
    + destruct (IH _ _ _ Er e He) as (cp & Hcp & Hf); exists cp; split; [right|]; assumption.
Qed.

Lemma grupos_datos_de_filas : forall gs cm tz user now gds,
  grupos_datos_de gs cm tz user now = Ok gds ->
  forall e, In e (flat_map GrupoDatos.atcs gds) ->
  exists g cp, In g gs /\ In cp (Grupo.controladores g) /\ fila_de user cp e.
Proof.
  induction gs as [|g r IH]; intros cm tz user now gds H; simpl in H.
  - injection H as <-; intros e [].
  - destruct (genera_datos_grupo g cm tz user now) as [[gd cm1]|e] eqn:Eg; simpl in H;
      [|discriminate].
    destruct (grupos_datos_de r cm1 tz user now) as [rest|e] eqn:Er; simpl in H;
      [|discriminate].
    injection H as <-; intros e He; simpl in He; apply in_app_or in He as [He|He].
    + unfold genera_datos_grupo in Eg.
      destruct (atcs_data g tz user now cm (Grupo.controladores g))
        as [[atcs cm2]|e'] eqn:Ea; simpl in Eg; [|discriminate].
      destruct (genera_horas_de_inicio _ _ _) as [hs|e']; simpl in Eg; [|discriminate].
      destruct (calcula_marcador g now) as [m|e']; simpl in Eg; [|discriminate].
      injection Eg as <- _; simpl in He.
      destruct (atcs_data_filas _ _ _ _ _ _ _ _ Ea e He) as (cp & Hcp & Hf).
      exists g, cp; split; [left; reflexivity|split; assumption].
    + destruct (IH _ _ _ _ _ Er e He) as (g' & cp & Hg & Hcp & Hf).
      exists g', cp; split; [right|]; auto.
Qed.

(** X13: when [genera_datos_estadillo] with viewer [u] succeeds, it returns a
    personal view, and that view is the viewer's own: its base entry carries
    the name of a controller with [u]'s id, is flagged [usuario_actual], and
    has one row per period of [u] in the roster, in roster order, each with
    that period's duration; the view has one contextualised period per such
    row. *)
Theorem genera_datos_estadillo_vista : forall est periodos u tz now d,
  genera_datos_estadillo est periodos (Some u) tz now = Ok d ->
  exists v c, DatosEstadilloCompleto.vista_controlador d = Some v /\
    ATC.id c = ATC.id u /\
    EstadilloPersonalData.nombre (VistaControladorCompleta.estadillo_base v) =
      ATC.nombre_apellidos c /\
    EstadilloPersonalData.usuario_actual (VistaControladorCompleta.estadillo_base v) = true /\
    map PeriodoData.duracion
        (EstadilloPersonalData.periodos (VistaControladorCompleta.estadillo_base v)) =
      map (fun p => minutos (Periodo.hora_fin p) (Periodo.hora_inicio p)) (periodos_de u periodos) /\
    List.length (VistaControladorCompleta.periodos_contextualizados v) =
      List.length (periodos_de u periodos).
Proof.
  intros est periodos u tz now d H; unfold genera_datos_estadillo in H.
  destruct (identifica_grupos est periodos) as [gs|e] eqn:Eg; simpl in H; [|discriminate].
  destruct (marca_anchor gs (Some u) now) as [gs'|e] eqn:Em; simpl in H; [|discriminate].
  destruct (grupos_datos_de gs' color_manager_nuevo tz (Some u) now) as [gds|e] eqn:Ed;
    simpl in H; [|discriminate].
  unfold generar_estadillo_personal in H; fold (busca_personal gds) in H.
  destruct (busca_personal gds) as [m|] eqn:Eb; simpl in H; [|discriminate].
  injection H as <-; simpl.
  apply find_some in Eb as [Hm Hf].
  destruct (grupos_datos_de_filas _ _ _ _ _ _ Ed m Hm) as (g' & [c ps] & Hg' & Hcp & Hn & Hd & Hu).
  simpl in Hn, Hd, Hu; rewrite Hf in Hu.
  unfold ATC.eqb in Hu; symmetry in Hu; apply Nat.eqb_eq in Hu.
  assert (Hin : In (Grupo.controladores g') (map Grupo.controladores gs))
    by (rewrite <- (marca_anchor_map Grupo.controladores _ _ _ _ (fun g p => eq_refl) Em);
        apply in_map, Hg').
  apply in_map_iff in Hin as (g & Ec & Hg).
  pose proof (identifica_grupos_bien_formados est periodos gs Eg) as F.
  rewrite Forall_forall in F; destruct (F g Hg) as (_ & _ & Hok & _).
  unfold entradas_ok in Hok; rewrite Forall_forall in Hok.
  rewrite Ec in Hok; pose proof (Hok _ Hcp) as Eps; simpl in Eps.
  rewrite reparte_periodos, (periodos_de_id c u periodos Hu) in Eps; subst ps.
  eexists; exists c; split; [reflexivity|].
  split; [exact Hu|split; [exact Hn|split; [exact Hf|split; [exact Hd|]]]].
  simpl; rewrite length_map.
  rewrite <- (length_map PeriodoData.duracion), Hd, length_map; reflexivity.
Qed.

Lemma genera_datos_estadillo_vista_witness :
  exists d, genera_datos_estadillo est0 roster_cadena (Some atcB) utc (hm 8 30) = Ok d /\
  exists v c, DatosEstadilloCompleto.vista_controlador d = Some v /\
    ATC.id c = ATC.id atcB /\
    EstadilloPersonalData.nombre (VistaControladorCompleta.estadillo_base v) =
      ATC.nombre_apellidos c /\
    EstadilloPersonalData.usuario_actual (VistaControladorCompleta.estadillo_base v) = true /\
    map PeriodoData.duracion
        (EstadilloPersonalData.periodos (VistaControladorCompleta.estadillo_base v)) =
      map (fun p => minutos (Periodo.hora_fin p) (Periodo.hora_inicio p))
          (periodos_de atcB roster_cadena) /\
    List.length (VistaControladorCompleta.periodos_contextualizados v) =
      List.length (periodos_de atcB roster_cadena).
Proof.
  eexists; split; [vm_compute; reflexivity|].
  eapply (genera_datos_estadillo_vista est0 roster_cadena atcB utc (hm 8 30)).
  vm_compute; reflexivity.
Defined.
